(** * anexec: the execution runtime core, embedded and verified

    A shallow embedding of the four stateful pieces of anexec
    (src/android/activity.cpp, src/android/api.cpp, src/core/executor.cpp,
    src/core/runtime.cpp) together with the properties the specification
    states about them.

    Conventions of the embedding:
    - every [Impl] class is a record and every member function a function
      that takes the record and returns the updated one;
    - [std::chrono::system_clock::now()] reads the next value of a [Clock],
      which is threaded through every function that reads the time;
    - raw pointers are integers ([nullptr] is 0);
    - a C++ exception is a value of type [exn]; a function that may throw
      returns its outcome explicitly. *)

From stdpp Require Import base option list gmap strings pretty.
From Stdlib Require Import ZArith Lia Ascii.

Open Scope Z_scope.
Open Scope string_scope.

(** ** The system clock *)

(** The readings [system_clock::now()] returns, in clock ticks since the
    epoch, in the order in which they are requested.  Nothing is assumed
    about them: the system clock need not be monotone. *)
Record Clock := MkClock { readings : nat -> Z; cursor : nat }.

(** Computations that may read the clock. *)
Definition Timed (A : Type) : Type := Clock -> A * Clock.

Definition ret {A} (x : A) : Timed A := fun c => (x, c).

Definition bind {A B} (m : Timed A) (k : A -> Timed B) : Timed B :=
  fun c => let (x, c') := m c in k x c'.

Notation "'let*' x ':=' m 'in' k" := (bind m (fun x => k))
  (at level 10, x name, m at level 100, k at level 200).

Definition now : Timed Z :=
  fun c => (readings c (cursor c), MkClock (readings c) (S (cursor c))).

(** The clock that always shows [t]. *)
Definition frozen (t : Z) : Clock := MkClock (fun _ => t) 0.

(** ** The component lifecycle (src/android/activity.cpp) *)

Module Activity.

Inductive Value := Created | Started | Resumed | Paused | Stopped | Destroyed.

#[global] Instance Value_eq_dec : EqDecision Value.
Proof. solve_decision. Defined.

(** [Impl::LifecycleState]: the state and the time it was entered. *)
Record LifecycleState := MkLifecycleState { value : Value; timestamp : Z }.

(** [LifecycleState(Value v)]: the constructor reads the clock. *)
Definition mkState (v : Value) : Timed LifecycleState :=
  let* t := now in ret (MkLifecycleState v t).

(** [Activity::SavedState] *)
Record SavedState := MkSavedState {
  ss_timestamp : Z;
  ss_data : list (string * string);
  ss_is_finishing : bool;
  ss_has_focus : bool
}.

(** A default-constructed [SavedState]. *)
Definition SavedState_default : SavedState := MkSavedState 0 [] false false.

(** [Activity::Intent] *)
Record Intent := MkIntent {
  action : string;
  intent_data : string;
  categories : list string;
  mime_type : string;
  package : string;
  component : string;
  is_explicit : bool
}.

(** The fields of [Activity::Impl]. *)
Record Impl := MkImpl {
  package_name : string;
  activity_name : string;
  state : LifecycleState;
  system_services : gmap string Z;
  is_finishing : bool;
  lifecycle_log : list string;
  create_time : Z;
  has_window_focus : bool;
  saved_state : SavedState
}.

Definition set_state (a : Impl) (s : LifecycleState) : Impl :=
  MkImpl (package_name a) (activity_name a) s (system_services a)
         (is_finishing a) (lifecycle_log a) (create_time a)
         (has_window_focus a) (saved_state a).

Definition set_system_services (a : Impl) (m : gmap string Z) : Impl :=
  MkImpl (package_name a) (activity_name a) (state a) m
         (is_finishing a) (lifecycle_log a) (create_time a)
         (has_window_focus a) (saved_state a).

Definition set_is_finishing (a : Impl) (b : bool) : Impl :=
  MkImpl (package_name a) (activity_name a) (state a) (system_services a)
         b (lifecycle_log a) (create_time a)
         (has_window_focus a) (saved_state a).

Definition set_lifecycle_log (a : Impl) (l : list string) : Impl :=
  MkImpl (package_name a) (activity_name a) (state a) (system_services a)
         (is_finishing a) l (create_time a)
         (has_window_focus a) (saved_state a).

Definition set_has_window_focus (a : Impl) (b : bool) : Impl :=
  MkImpl (package_name a) (activity_name a) (state a) (system_services a)
         (is_finishing a) (lifecycle_log a) (create_time a)
         b (saved_state a).

Definition set_saved_state (a : Impl) (s : SavedState) : Impl :=
  MkImpl (package_name a) (activity_name a) (state a) (system_services a)
         (is_finishing a) (lifecycle_log a) (create_time a)
         (has_window_focus a) s.

(** [logLifecycleEvent]: one line is appended to the log (the same line
    goes to the console). *)
Definition log_line (a : Impl) (event : string) : string :=
  "Activity " +:+ activity_name a +:+ ": " +:+ event.

Definition logLifecycleEvent (a : Impl) (event : string) : Impl :=
  set_lifecycle_log a (lifecycle_log a ++ [log_line a event]).

(** [Impl()]: the members are initialised in declaration order, so the
    state's timestamp is read before the creation time. *)
Definition new : Timed Impl :=
  let* s := mkState Created in
  let* t := now in
  ret (logLifecycleEvent
         (MkImpl "com.example.app" "MainActivity" s ∅ false [] t false
                 SavedState_default)
         "Constructed").

Definition initializeSystemServices (a : Impl) : Impl :=
  let m := system_services a in
  let m := <["window" := 0]> m in
  let m := <["layout_inflater" := 0]> m in
  let m := <["activity" := 0]> m in
  let m := <["input_method" := 0]> m in
  let m := <["location" := 0]> m in
  logLifecycleEvent (set_system_services a m) "System services initialized".

Definition cleanupSystemServices (a : Impl) : Impl :=
  logLifecycleEvent (set_system_services a ∅) "System services cleaned up".

(** The six lifecycle callbacks.  In the source the body after the guard
    runs inside a [try] whose handler logs and rethrows; nothing in these
    bodies throws short of the process running out of memory, which is
    not modelled, so the handlers do not appear here. *)
Definition onCreate (a : Impl) : Timed Impl :=
  if decide (value (state a) ≠ Created) then ret a
  else
    let a := logLifecycleEvent a "onCreate called" in
    let a := initializeSystemServices a in
    let* s := mkState Created in
    ret (set_state a s).

Definition onStart (a : Impl) : Timed Impl :=
  if decide (value (state a) ≠ Created ∧ value (state a) ≠ Stopped) then ret a
  else
    let a := logLifecycleEvent a "onStart called" in
    let* s := mkState Started in
    ret (set_state a s).

Definition onResume (a : Impl) : Timed Impl :=
  if decide (value (state a) ≠ Started ∧ value (state a) ≠ Paused) then ret a
  else
    let a := logLifecycleEvent a "onResume called" in
    let* s := mkState Resumed in
    ret (set_state a s).

Definition onPause (a : Impl) : Timed Impl :=
  if decide (value (state a) ≠ Resumed) then ret a
  else
    let a := logLifecycleEvent a "onPause called" in
    let* s := mkState Paused in
    ret (set_state a s).

Definition onStop (a : Impl) : Timed Impl :=
  if decide (value (state a) ≠ Paused) then ret a
  else
    let a := logLifecycleEvent a "onStop called" in
    let* s := mkState Stopped in
    ret (set_state a s).

Definition onDestroy (a : Impl) : Timed Impl :=
  if decide (value (state a) = Destroyed) then ret a
  else
    let a := logLifecycleEvent a "onDestroy called" in
    let a := cleanupSystemServices a in
    let* s := mkState Destroyed in
    ret (set_state a s).

(** [onSaveInstanceState(outState)]: the out-parameter is overwritten as a
    whole, so it is returned next to the instance. *)
Definition onSaveInstanceState (a : Impl) : Timed (Impl * SavedState) :=
  let a := logLifecycleEvent a "Saving instance state" in
  let out := saved_state a in
  let* t := now in
  let out := MkSavedState t (ss_data out) (ss_is_finishing out) (ss_has_focus out) in
  let out := MkSavedState (ss_timestamp out) (ss_data out) (is_finishing a) (ss_has_focus out) in
  let out := MkSavedState (ss_timestamp out) (ss_data out) (ss_is_finishing out) (has_window_focus a) in
  ret (a, out).

Definition onRestoreInstanceState (a : Impl) (savedState : SavedState) : Impl :=
  let a := logLifecycleEvent a "Restoring instance state" in
  let a := set_saved_state a savedState in
  set_has_window_focus a (ss_has_focus savedState).

Definition onWindowFocusChanged (a : Impl) (hasFocus : bool) : Impl :=
  let a := set_has_window_focus a hasFocus in
  logLifecycleEvent a
    ("Window focus changed: " +:+ (if hasFocus then "gained focus" else "lost focus")).

Definition startActivity (a : Impl) (intent : Intent) : Impl :=
  logLifecycleEvent a ("Starting new activity: " +:+ action intent).

Definition finish (a : Impl) : Timed Impl :=
  if negb (is_finishing a) then
    let a := set_is_finishing a true in
    let a := logLifecycleEvent a "Activity finishing" in
    let* a := onPause a in
    let* a := onStop a in
    onDestroy a
  else ret a.

Definition getSystemService (a : Impl) (name : string) : Z :=
  match system_services a !! name with
  | Some p => p
  | None => 0
  end.

Definition isFinishing (a : Impl) : bool := is_finishing a.
Definition hasWindowFocus (a : Impl) : bool := has_window_focus a.
Definition isDestroyed (a : Impl) : bool := bool_decide (value (state a) = Destroyed).

(** The six lifecycle calls, and a run of them. *)
Inductive Call :=
  CallCreate | CallStart | CallResume | CallPause | CallStop | CallDestroy.

Definition call (c : Call) (a : Impl) : Timed Impl :=
  match c with
  | CallCreate => onCreate a
  | CallStart => onStart a
  | CallResume => onResume a
  | CallPause => onPause a
  | CallStop => onStop a
  | CallDestroy => onDestroy a
  end.

Fixpoint run_calls (cs : list Call) (a : Impl) : Timed Impl :=
  match cs with
  | [] => ret a
  | c :: cs => let* a := call c a in run_calls cs a
  end.

(** Every operation of the public interface that can change the
    instance. *)
Inductive Op :=
| OpCall (c : Call)
| OpSave
| OpRestore (s : SavedState)
| OpFocus (hasFocus : bool)
| OpStartActivity (intent : Intent)
| OpFinish.

Definition op (o : Op) (a : Impl) : Timed Impl :=
  match o with
  | OpCall c => call c a
  | OpSave => let* r := onSaveInstanceState a in ret (fst r)
  | OpRestore s => ret (onRestoreInstanceState a s)
  | OpFocus b => ret (onWindowFocusChanged a b)
  | OpStartActivity i => ret (startActivity a i)
  | OpFinish => finish a
  end.

Fixpoint run_ops (os : list Op) (a : Impl) : Timed Impl :=
  match os with
  | [] => ret a
  | o :: os => let* a := op o a in run_ops os a
  end.

(** The transition table as the specification prints it (section 4.2):
    the state a call leads to when its guard holds, [None] when the call
    is to be ignored. *)
Definition spec_table (c : Call) (v : Value) : option Value :=
  match c, v with
  | CallCreate, Created => Some Created
  | CallStart, (Created | Stopped) => Some Started
  | CallResume, (Started | Paused) => Some Resumed
  | CallPause, Resumed => Some Paused
  | CallStop, Paused => Some Stopped
  | CallDestroy, Destroyed => None
  | CallDestroy, _ => Some Destroyed
  | _, _ => None
  end.

Definition spec_step (v : Value) (c : Call) : Value :=
  default v (spec_table c v).

(** The invariant behind [finish]: the finishing flag is only ever set
    on the way to [Destroyed]. *)
Definition finishing_is_destroyed (a : Impl) : Prop :=
  is_finishing a = true -> value (state a) = Destroyed.

(** A run of lifecycle calls that leads a new instance to a given
    state. *)
Definition path_to (v : Value) : list Call :=
  match v with
  | Created => []
  | Started => [CallStart]
  | Resumed => [CallStart; CallResume]
  | Paused => [CallStart; CallResume; CallPause]
  | Stopped => [CallStart; CallResume; CallPause; CallStop]
  | Destroyed => [CallDestroy]
  end.

Definition is_restore (o : Op) : bool :=
  match o with
  | OpRestore _ => true
  | _ => false
  end.

(** The service table [initializeSystemServices] leaves behind: the five
    service names, each bound to [nullptr]. *)
Definition null_services : gmap string Z :=
  <["location" := 0]> (<["input_method" := 0]> (<["activity" := 0]>
  (<["layout_inflater" := 0]> (<["window" := 0]> ∅)))).

(** The service table is empty or holds the five null services, and it is
    empty once the instance is destroyed. *)
Definition services_invariant (a : Impl) : Prop :=
  (system_services a = ∅ \/ system_services a = null_services)
  /\ (value (state a) = Destroyed -> system_services a = ∅).

End Activity.

(** ** C++ exceptions *)

(** What a [throw] carries: an object derived from [std::exception], with
    the text its [what()] returns, or a value of any other type. *)
Inductive exn :=
| StdException (what : string)
| ForeignException.

(** [std::to_string(int)] *)
Definition to_string (z : Z) : string := pretty z.

(** [std::stoull(s)], base 10: leading white space is skipped, a sign is
    accepted, the longest run of digits is read and what follows it is
    ignored.  Without a digit it throws [std::invalid_argument], above
    2^64 - 1 [std::out_of_range]; a minus sign negates modulo 2^64. *)
Definition is_space (a : ascii) : bool :=
  let n := Z.of_nat (nat_of_ascii a) in
  bool_decide (n = 32) || bool_decide (9 <= n <= 13).

Definition digit_of (a : ascii) : option Z :=
  let n := Z.of_nat (nat_of_ascii a) in
  if bool_decide (48 <= n <= 57) then Some (n - 48) else None.

Fixpoint skip_spaces (s : string) : string :=
  match s with
  | String a r => if is_space a then skip_spaces r else s
  | EmptyString => s
  end.

(** The value of the digits [s] starts with, after the digits [acc] stands
    for; [None] when [s] starts with no digit and [seen] is false. *)
Fixpoint read_digits (seen : bool) (acc : Z) (s : string) : option Z :=
  match s with
  | String a r =>
      match digit_of a with
      | Some d => read_digits true (10 * acc + d) r
      | None => if seen then Some acc else None
      end
  | EmptyString => if seen then Some acc else None
  end.

Definition ULLONG_MAX : Z := 2 ^ 64 - 1.

Definition stoull (s : string) : exn + Z :=
  let s := skip_spaces s in
  let (negative, s) :=
    match s with
    | String "-" r => (true, r)
    | String "+" r => (false, r)
    | _ => (false, s)
    end in
  match read_digits false 0 s with
  | None => inl (StdException "stoull")
  | Some v =>
      if decide (v > ULLONG_MAX) then inl (StdException "stoull")
      else inr (if negative then (- v) mod 2 ^ 64 else v)
  end.

(** ** The capability gateway (src/android/api.cpp) *)

Module API.

Inductive APILevel :=
  ANDROID_10 | ANDROID_11 | ANDROID_12 | ANDROID_12L | ANDROID_13 | ANDROID_14.

(** [static_cast<int>(level)] *)
Definition level_to_int (l : APILevel) : Z :=
  match l with
  | ANDROID_10 => 29
  | ANDROID_11 => 30
  | ANDROID_12 => 31
  | ANDROID_12L => 32
  | ANDROID_13 => 33
  | ANDROID_14 => 34
  end.

Record APIConfig := MkAPIConfig {
  cfg_package_name : string;
  cfg_version_name : string;
  cfg_version_code : Z;
  cfg_min_sdk_level : APILevel;
  cfg_target_sdk_level : APILevel
}.

Record APIResponse := MkAPIResponse {
  success : bool;
  data : string;
  error : string
}.

(** A request.  Its [callback] is the channel the response is delivered
    on: the host's callback is taken to be set and to return normally, so
    it is identified by a number and every response handed to it is
    recorded in the trace of the call. *)
Record APIRequest := MkAPIRequest {
  method : string;
  params : gmap string string;
  callback : nat
}.

(** What a call into the gateway does that its caller can observe, in
    order: the handlers it invokes and the responses it hands to
    callbacks. *)
Inductive Event :=
| Invoked (name : string)
| Responded (cb : nat) (r : APIResponse).

(** A registered handler: one of the three the constructor installs
    (closures over the gateway itself), or the host's own code.  Of the
    latter only what it does is known: the responses it delivers and
    whether it returns or throws.  It does not call back into the gateway,
    whose registry is locked while it runs. *)
Inductive Handler :=
| GetApiLevel
| CheckPermission
| RegisterNativeMethod
| Custom (body : APIRequest -> list APIResponse * option exn).

(** [Impl::APIState] *)
Record APIState := MkAPIState {
  initialized : bool;
  package_name : string;
  version_name : string;
  version_code : Z;
  min_sdk_level : APILevel;
  target_sdk_level : APILevel;
  native_functions : gmap string Z
}.

Record Impl := MkImpl {
  state : APIState;
  handlers : gmap string Handler;
  last_rate_reset : Z;
  api_calls_count : Z
}.

Definition MAX_API_CALLS_PER_SECOND : Z := 1000.

(** The ticks of [system_clock] in one second: the clock counts
    nanoseconds. *)
Definition ticks_per_second : Z := 1000000000.

(** [duration_cast<seconds>(d).count()]: integer division that truncates
    towards zero. *)
Definition to_seconds (d : Z) : Z := Z.quot d ticks_per_second.

Definition set_state (g : Impl) (s : APIState) : Impl :=
  MkImpl s (handlers g) (last_rate_reset g) (api_calls_count g).

Definition registerHandler (g : Impl) (name : string) (h : Handler) : Impl :=
  MkImpl (state g) (<[name := h]> (handlers g)) (last_rate_reset g)
         (api_calls_count g).

Definition registerDefaultHandlers (g : Impl) : Impl :=
  let g := registerHandler g "getApiLevel" GetApiLevel in
  let g := registerHandler g "checkPermission" CheckPermission in
  registerHandler g "registerNativeMethod" RegisterNativeMethod.

(** [Impl()] *)
Definition new : Timed Impl :=
  let* t := now in
  ret (registerDefaultHandlers
         (MkImpl (MkAPIState false "" "" 0 ANDROID_10 ANDROID_13 ∅) ∅ t 0)).

(** [initialize]: throws when called a second time. *)
Definition initialize (g : Impl) (config : APIConfig) : exn + Impl :=
  if initialized (state g) then inl (StdException "API already initialized")
  else
    inr (set_state g
           (MkAPIState true (cfg_package_name config) (cfg_version_name config)
                       (cfg_version_code config) (cfg_min_sdk_level config)
                       (cfg_target_sdk_level config)
                       (native_functions (state g)))).

(** The clock counts in a signed 64-bit integer. *)
Definition fits_int64 (z : Z) : Prop := - 2 ^ 63 <= z <= 2 ^ 63 - 1.

(** The subtraction [t - last_rate_reset] is exact: both counts are 64-bit
    values and so is their difference. *)
Definition exact_at (g : Impl) (t : Z) : Prop :=
  fits_int64 t /\ fits_int64 (last_rate_reset g)
  /\ fits_int64 (t - last_rate_reset g).

(** [checkRateLimit].  [now - last_rate_reset] subtracts two 64-bit counts
    of clock ticks.  It is written here as the difference of the integers,
    which is what the source computes whenever the counts and their
    difference fit 64 bits ([exact_at]); for other readings the signed
    subtraction of the source overflows, which this model does not
    describe.  The properties of the window are stated for readings at
    which the subtraction is exact. *)
Definition checkRateLimit (g : Impl) : Timed (bool * Impl) :=
  let* t := now in
  let elapsed := to_seconds (t - last_rate_reset g) in
  let g :=
    if decide (elapsed >= 1)
    then MkImpl (state g) (handlers g) t 0
    else g in
  if decide (api_calls_count g >= MAX_API_CALLS_PER_SECOND) then ret (false, g)
  else
    ret (true, MkImpl (state g) (handlers g) (last_rate_reset g)
                      (api_calls_count g + 1)).

(** [std::map::at]: throws [std::out_of_range] for a missing key. *)
Definition at_ (m : gmap string string) (k : string) : exn + string :=
  match m !! k with
  | Some v => inr v
  | None => inl (StdException "map::at")
  end.

(** [request.callback(response)] *)
Definition respond (req : APIRequest) (r : APIResponse) : list Event :=
  [Responded (callback req) r].

(** A response written with designated initialisers: the members left
    out are empty. *)
Definition ok_response (d : string) : APIResponse := MkAPIResponse true d "".
Definition failure (e : string) : APIResponse := MkAPIResponse false "" e.

(** What running a handler gives: the gateway after it, what was
    observed, and the exception it ended with, if any. *)
Definition Run : Type := Impl * list Event * option exn.

Definition handleGetApiLevel (g : Impl) (req : APIRequest) : Run :=
  let api_level := level_to_int (target_sdk_level (state g)) in
  (g, respond req (ok_response (to_string api_level)), None).

Definition handleCheckPermission (g : Impl) (req : APIRequest) : Run :=
  match at_ (params req) "permission" with
  | inl e => (g, [], Some e)
  | inr permission =>
      let granted :=
        bool_decide (permission = "android.permission.INTERNET")
        || bool_decide (permission = "android.permission.READ_EXTERNAL_STORAGE")
        || bool_decide (permission = "android.permission.WRITE_EXTERNAL_STORAGE") in
      (g, respond req (ok_response (if granted then "granted" else "denied")), None)
  end.

Definition handleRegisterNativeMethod (g : Impl) (req : APIRequest) : Run :=
  match at_ (params req) "name" with
  | inl e => (g, [], Some e)
  | inr method_name =>
      match at_ (params req) "pointer" with
      | inl e => (g, [], Some e)
      | inr text =>
          match stoull text with
          | inl e => (g, [], Some e)
          | inr method_ptr =>
              let st := state g in
              let st :=
                MkAPIState (initialized st) (package_name st) (version_name st)
                           (version_code st) (min_sdk_level st)
                           (target_sdk_level st)
                           (<[method_name := method_ptr]> (native_functions st)) in
              (set_state g st,
               respond req (ok_response ("Native method registered: " +:+ method_name)),
               None)
          end
      end
  end.

(** [it->second(request)] *)
Definition invoke (h : Handler) (g : Impl) (req : APIRequest) : Run :=
  match h with
  | GetApiLevel => handleGetApiLevel g req
  | CheckPermission => handleCheckPermission g req
  | RegisterNativeMethod => handleRegisterNativeMethod g req
  | Custom body =>
      let (rs, e) := body req in
      (g, map (Responded (callback req)) rs, e)
  end.

(** [handleRequest]: the last component is the exception that reaches the
    caller, [None] when the call returns. *)
Definition handleRequest (g : Impl) (request : APIRequest) : Timed Run :=
  if negb (initialized (state g)) then
    ret (g, respond request (failure "API not initialized"), None)
  else
    let* r := checkRateLimit g in
    let (admitted, g) := r in
    if negb admitted then
      ret (g, respond request (failure "Rate limit exceeded"), None)
    else
      match handlers g !! method request with
      | None =>
          ret (g, respond request (failure ("Unknown method: " +:+ method request)),
               None)
      | Some h =>
          let '(g, evs, e) := invoke h g request in
          let evs := Invoked (method request) :: evs in
          match e with
          | None => ret (g, evs, None)
          | Some (StdException what) =>
              ret (g, (evs ++ respond request (failure ("Handler error: " +:+ what)))%list,
                   None)
          | Some ForeignException => ret (g, evs, Some ForeignException)
          end
      end.

Definition getNativeFunction (g : Impl) (name : string) : Z :=
  match native_functions (state g) !! name with
  | Some p => p
  | None => 0
  end.

Definition isInitialized (g : Impl) : bool := initialized (state g).

(** [n] calls of [checkRateLimit] in a row, with their answers. *)
Fixpoint checkRateLimit_n (n : nat) (g : Impl) : Timed (list bool * Impl) :=
  match n with
  | O => ret ([], g)
  | S n =>
      let* r := checkRateLimit g in
      let* rs := checkRateLimit_n n (snd r) in
      ret (fst r :: fst rs, snd rs)
  end.

(** At each of the next [n] readings of the clock the subtraction from
    the last reset of the limiter is exact. *)
Definition readings_exact (g : Impl) (clk : Clock) (n : nat) : Prop :=
  forall i : nat, (i < n)%nat -> exact_at g (readings clk (cursor clk + i)).

(** The next [n] readings of the clock are less than one second after
    the last reset of the limiter. *)
Definition in_window (g : Impl) (clk : Clock) (n : nat) : Prop :=
  forall i : nat, (i < n)%nat ->
    readings clk (cursor clk + i) - last_rate_reset g < ticks_per_second.

(** A host that calls [initialize] and keeps the gateway as it is when
    the call throws. *)
Definition try_initialize (g : Impl) (config : APIConfig) : Impl :=
  match initialize g config with
  | inr g => g
  | inl _ => g
  end.

Definition example_config : APIConfig :=
  MkAPIConfig "com.example.test" "1.0.0" 1 ANDROID_10 ANDROID_13.

(** A handler the constructor installs, as opposed to the host's own. *)
Definition builtin (h : Handler) : bool :=
  match h with
  | Custom _ => false
  | _ => true
  end.

(** A host that hands the gateway one request after another and goes on
    when an exception reaches it: the gateway after the last request and
    everything observed on the way. *)
Fixpoint serve (reqs : list APIRequest) (g : Impl) : Timed (Impl * list Event) :=
  match reqs with
  | [] => ret (g, [])
  | req :: reqs =>
      let* r := handleRequest g req in
      let* rs := serve reqs (fst (fst r)) in
      ret (fst rs, (snd (fst r) ++ snd rs)%list)
  end.

(** What no request changes: the configuration of the gateway and its
    handler registry. *)
Definition same_setup (g g' : Impl) : Prop :=
  handlers g' = handlers g
  /\ initialized (state g') = initialized (state g)
  /\ package_name (state g') = package_name (state g)
  /\ version_name (state g') = version_name (state g)
  /\ version_code (state g') = version_code (state g)
  /\ min_sdk_level (state g') = min_sdk_level (state g)
  /\ target_sdk_level (state g') = target_sdk_level (state g).

(** Every registered native function is a 64-bit pointer value. *)
Definition pointers_in_range (g : Impl) : Prop :=
  forall name v, native_functions (state g) !! name = Some v -> 0 <= v <= ULLONG_MAX.

(** The permissions [handleCheckPermission] grants. *)
Definition allow_list : list string :=
  ["android.permission.INTERNET";
   "android.permission.READ_EXTERNAL_STORAGE";
   "android.permission.WRITE_EXTERNAL_STORAGE"].

End API.

(** ** The package loader (src/core/executor.cpp) *)

Module Executor.

Inductive ExecutionState := NotStarted | Loading | Running | Paused | Stopped | Error.

#[global] Instance ExecutionState_eq_dec : EqDecision ExecutionState.
Proof. solve_decision. Defined.

(** [static_cast<int>(state)] *)
Definition state_to_int (s : ExecutionState) : Z :=
  match s with
  | NotStarted => 0
  | Loading => 1
  | Running => 2
  | Paused => 3
  | Stopped => 4
  | Error => 5
  end.

Inductive Result :=
| Success | InvalidApk | RuntimeError | SecurityError | GraphicsError
| PermissionDenied | UnsupportedApi | MemoryError | NetworkError.

#[global] Instance Result_eq_dec : EqDecision Result.
Proof. solve_decision. Defined.

Record ApkInfo := MkApkInfo {
  package_name : string;
  version_name : string;
  version_code : Z;
  min_sdk : string;
  target_sdk : string;
  permissions : list string;
  main_activity : string;
  apk_path : string;
  load_time : Z
}.

Record ExecutorConfig := MkExecutorConfig {
  enable_graphics : bool;
  enable_sound : bool;
  enable_network : bool;
  sandbox_mode : bool;
  data_dir : string;
  allowed_permissions : list string
}.

(** *** The host: file system, archives, memory and libraries *)

(** An entry of an archive: the size [zip_stat] reports, and the bytes
    [zip_fread] delivers ([None] when [zip_fopen] fails). *)
Record ZipEntry := MkZipEntry { entry_size : Z; entry_bytes : option (list Z) }.

(** An opened archive, as far as the loader looks into it:
    [zip_stat(z, "classes.dex")] finds an entry or not. *)
Record Zip := MkZip { classes_dex : option ZipEntry }.

(** What the loader asks of its host: whether a path exists
    ([std::filesystem::exists], which reports an I/O fault by throwing a
    [filesystem_error], given here by its message), what [zip_open] makes
    of it, and whether a mapping of a given size is refused. *)
Record Env := MkEnv {
  fs_exists : string -> string + bool;
  zip_open : string -> option Zip;
  mmap_fails : Z -> bool
}.

(** The resources of the process: anonymous mappings (base address and
    contents), open library handles (with multiplicity), and the lines
    handed to event callbacks. *)
Record OS := MkOS {
  mapped : gmap Z (list Z);
  dl_handles : list Z;
  events : list (nat * string)
}.

Definition MAP_FAILED : Z := -1.

(** [mmap(nullptr, size, ..., MAP_PRIVATE | MAP_ANONYMOUS, -1, 0)]: fails
    for a length of zero and when the host refuses; otherwise a region of
    [size] zero bytes at an address that is not in use. *)
Definition mmap (env : Env) (os : OS) (size : Z) : Z * OS :=
  if decide (size <= 0) then (MAP_FAILED, os)
  else if mmap_fails env size then (MAP_FAILED, os)
  else
    let addr := fresh ({[0; MAP_FAILED]} ∪ dom (mapped os)) in
    (addr, MkOS (<[addr := replicate (Z.to_nat size) 0]> (mapped os))
                (dl_handles os) (events os)).

(** [munmap(addr, len)]: releases the mapping at [addr] of that length;
    any other call fails and leaves the mappings as they are. *)
Definition munmap (os : OS) (addr len : Z) : OS :=
  match mapped os !! addr with
  | Some region =>
      if decide (Z.of_nat (length region) = len)
      then MkOS (delete addr (mapped os)) (dl_handles os) (events os)
      else os
  | None => os
  end.

(** [zip_fread(file, buffer, n)] into the region at [addr]. *)
Definition store (bytes region : list Z) : list Z :=
  take (length region) bytes ++ drop (length bytes) region.

Definition zip_fread (os : OS) (addr : Z) (bytes : list Z) : OS :=
  MkOS (alter (store bytes) addr (mapped os)) (dl_handles os) (events os).

(** Removes the first occurrence of [h]. *)
Fixpoint remove_one (h : Z) (l : list Z) : list Z :=
  match l with
  | [] => []
  | x :: l => if decide (x = h) then l else x :: remove_one h l
  end.

(** [dlclose(lib)] *)
Definition dlclose (os : OS) (lib : Z) : OS :=
  MkOS (mapped os) (remove_one lib (dl_handles os)) (events os).

(** *** The loader *)

(** [execute], which spins until another thread calls [stop], is not part
    of this sequential model. *)

(** The fields of [Executor::Impl].  A callback is a number that names
    it, [None] when none is set; callbacks are taken to return
    normally. *)
Record Impl := MkImpl {
  apk_info : ApkInfo;
  state : ExecutionState;
  config : ExecutorConfig;
  last_error : string;
  event_callback : option nat;
  error_callback : option nat;
  is_running : bool;
  dex_data : Z;
  dex_size : Z;
  loaded_libs : list Z
}.

Definition set_apk_info (l : Impl) (i : ApkInfo) : Impl :=
  MkImpl i (state l) (config l) (last_error l) (event_callback l)
         (error_callback l) (is_running l) (dex_data l) (dex_size l)
         (loaded_libs l).

Definition set_state (l : Impl) (s : ExecutionState) : Impl :=
  MkImpl (apk_info l) s (config l) (last_error l) (event_callback l)
         (error_callback l) (is_running l) (dex_data l) (dex_size l)
         (loaded_libs l).

Definition set_last_error (l : Impl) (e : string) : Impl :=
  MkImpl (apk_info l) (state l) (config l) e (event_callback l)
         (error_callback l) (is_running l) (dex_data l) (dex_size l)
         (loaded_libs l).

Definition set_dex_data (l : Impl) (p : Z) : Impl :=
  MkImpl (apk_info l) (state l) (config l) (last_error l) (event_callback l)
         (error_callback l) (is_running l) p (dex_size l)
         (loaded_libs l).

Definition set_dex_size (l : Impl) (n : Z) : Impl :=
  MkImpl (apk_info l) (state l) (config l) (last_error l) (event_callback l)
         (error_callback l) (is_running l) (dex_data l) n
         (loaded_libs l).

Definition ApkInfo_default : ApkInfo := MkApkInfo "" "" 0 "" "" [] "" "" 0.

Definition ExecutorConfig_default : ExecutorConfig :=
  MkExecutorConfig true true true true "" [].

(** [Impl()] *)
Definition new : Impl :=
  MkImpl ApkInfo_default NotStarted ExecutorConfig_default "" None None
         false 0 0 [].

Definition updateState (l : Impl) (os : OS) (new_state : ExecutionState)
  : Impl * OS :=
  let l := set_state l new_state in
  match event_callback l with
  | Some cb =>
      (l, MkOS (mapped os) (dl_handles os)
               (events os ++
                [(cb, "State changed to: " +:+ to_string (state_to_int (state l)))]))
  | None => (l, os)
  end.

Definition extractDex (env : Env) (l : Impl) (os : OS) (apk_path : string)
  : bool * Impl * OS :=
  match zip_open env apk_path with
  | None => (false, set_last_error l "Failed to open APK file", os)
  | Some z =>
      match classes_dex z with
      | Some st =>
          let l := set_dex_size l (entry_size st) in
          let (p, os) := mmap env os (dex_size l) in
          let l := set_dex_data l p in
          if decide (dex_data l = MAP_FAILED) then
            (false, set_last_error l "Failed to allocate memory for DEX", os)
          else
            let os :=
              match entry_bytes st with
              | Some bytes => zip_fread os (dex_data l) bytes
              | None => os
              end in
            (true, l, os)
      | None => (true, l, os)
      end
  end.

(** [~Impl()] *)
Definition destroy (l : Impl) (os : OS) : OS :=
  let os := if decide (dex_data l ≠ 0) then munmap os (dex_data l) (dex_size l)
            else os in
  foldl dlclose os (loaded_libs l).

Definition loadApk (env : Env) (l : Impl) (os : OS) (path : string)
  : Timed (Result * Impl * OS) :=
  let (l, os) := updateState l os Loading in
  match fs_exists env path with
  | inl what =>
      let l := set_last_error l what in
      let (l, os) := updateState l os Error in
      ret (RuntimeError, l, os)
  | inr false =>
      let l := set_last_error l "APK file not found" in
      let (l, os) := updateState l os Error in
      ret (InvalidApk, l, os)
  | inr true =>
      let* t := now in
      let l :=
        set_apk_info l
          (MkApkInfo "com.example.test" "1.0.0" 1 "21" "33"
                     (permissions (apk_info l))
                     "com.example.test.MainActivity" path t) in
      let '(extracted, l, os) := extractDex env l os path in
      if negb extracted then
        let (l, os) := updateState l os Error in
        ret (RuntimeError, l, os)
      else
        let (l, os) := updateState l os Stopped in
        ret (Success, l, os)
  end.

Definition pause (l : Impl) (os : OS) : Impl * OS :=
  if decide (state l = Running) then updateState l os Paused else (l, os).

Definition resume (l : Impl) (os : OS) : Impl * OS :=
  if decide (state l = Paused) then updateState l os Running else (l, os).

Definition stop (l : Impl) : Impl :=
  MkImpl (apk_info l) (state l) (config l) (last_error l) (event_callback l)
         (error_callback l) false (dex_data l) (dex_size l) (loaded_libs l).

Definition setEventCallback (l : Impl) (cb : option nat) : Impl :=
  MkImpl (apk_info l) (state l) (config l) (last_error l) cb
         (error_callback l) (is_running l) (dex_data l) (dex_size l)
         (loaded_libs l).

(** The loader and the mappings agree: no mapping starts at [nullptr] or
    at [MAP_FAILED], and a pointer the loader holds other than these two
    is the base of a mapping of [dex_size] bytes. *)
Definition holds_region (l : Impl) (os : OS) : Prop :=
  mapped os !! 0 = None
  /\ mapped os !! MAP_FAILED = None
  /\ (dex_data l ≠ 0 -> dex_data l ≠ MAP_FAILED ->
      exists region, mapped os !! dex_data l = Some region
                     /\ Z.of_nat (length region) = dex_size l).

(** What [extractDex] can have done to the mappings: nothing, with the
    loader's pointer kept or set to [MAP_FAILED] ... *)
Definition nothing_mapped (l : Impl) (os : OS) (l' : Impl) (os' : OS) : Prop :=
  mapped os' = mapped os
  /\ ((dex_data l' = dex_data l /\ dex_size l' = dex_size l)
      \/ dex_data l' = MAP_FAILED).

(** ... or one new region, which the loader's pointer now names. *)
Definition region_mapped (l : Impl) (os : OS) (l' : Impl) (os' : OS) : Prop :=
  dex_data l' ≠ 0 /\ dex_data l' ≠ MAP_FAILED
  /\ mapped os !! dex_data l' = None
  /\ exists region, mapped os' = <[dex_data l' := region]> (mapped os)
                    /\ Z.of_nat (length region) = dex_size l'.

(** Hosts used as examples: every path exists and opens as an archive
    with the given [classes.dex] entry, and memory is never refused. *)
Definition host_with (entry : option ZipEntry) : Env :=
  MkEnv (fun _ => inr true) (fun _ => Some (MkZip entry)) (fun _ => false).

(** A host on which no path exists. *)
Definition empty_host : Env :=
  MkEnv (fun _ => inr false) (fun _ => None) (fun _ => false).

(** A process without mappings and open libraries. *)
Definition idle : OS := MkOS ∅ [] [].

(** A loader in the [Error] state that holds a region of four bytes at
    address 1 and two library handles, in a process that has a third
    library open. *)
Definition holding : Impl :=
  MkImpl ApkInfo_default Error ExecutorConfig_default "" None None false
         1 4 [7; 9].

Definition busy : OS := MkOS {[1 := [0; 0; 0; 0]]} [9; 7; 5] [].

(** [utils::formatError] *)
Definition formatError (result : Result) : string :=
  match result with
  | Success => "Success"
  | InvalidApk => "Invalid APK file"
  | RuntimeError => "Runtime error"
  | SecurityError => "Security error"
  | GraphicsError => "Graphics error"
  | PermissionDenied => "Permission denied"
  | UnsupportedApi => "Unsupported API"
  | MemoryError => "Memory error"
  | NetworkError => "Network error"
  end.

(** The metadata [loadApk] writes once the path is known to exist. *)
Definition loaded_info (l : Impl) (path : string) (t : Z) : ApkInfo :=
  MkApkInfo "com.example.test" "1.0.0" 1 "21" "33" (permissions (apk_info l))
            "com.example.test.MainActivity" path t.

(** What a load attempt never touches. *)
Definition same_settings (l l' : Impl) : Prop :=
  config l' = config l /\ event_callback l' = event_callback l
  /\ error_callback l' = error_callback l /\ is_running l' = is_running l
  /\ loaded_libs l' = loaded_libs l.

End Executor.

(** ** Runtime boot and class registry (src/core/runtime.cpp) *)

Module Runtime.

Inductive Result :=
| Success | RuntimeError | ClassNotFound | MethodNotFound | OutOfMemory
| SecurityException.

Inductive RuntimeState := NotInitialized | Ready | Running | Stopped | Error.

#[global] Instance RuntimeState_eq_dec : EqDecision RuntimeState.
Proof. solve_decision. Defined.

Record RuntimeConfig := MkRuntimeConfig {
  system_dir : string;
  data_dir : string;
  heap_size : Z;
  debug_mode : bool;
  classpath : list string
}.

Definition RuntimeConfig_default : RuntimeConfig :=
  MkRuntimeConfig "" "" (256 * 1024 * 1024) false [].

(** The fields of [Runtime::Impl].  The class table is the vector of the
    names loaded so far; a callback is a number that names it, [None]
    when none is set, and is taken to return normally. *)
Record Impl := MkImpl {
  config : RuntimeConfig;
  state : RuntimeState;
  user : string;
  start_time : Z;
  loaded_classes : list string;
  native_methods : gmap string Z;
  event_callback : option nat
}.

(** A line handed to the event callback: the callback, the clock reading
    [getCurrentUTCTime] renders in front of the message, and the
    message. *)
Record LogEvent := MkLogEvent { log_cb : nat; log_time : Z; log_message : string }.

(** Runtime operations read the clock and hand lines to the callback:
    each returns its result, the runtime after it and the lines it
    emitted. *)
Definition Logged (A : Type) : Type := Timed (A * Impl * list LogEvent).

Definition pure {A} (x : A) (r : Impl) : Logged A := ret (x, r, []).

Definition seq {A B} (m : Logged A) (k : A -> Impl -> Logged B) : Logged B :=
  let* x := m in
  let '(a, r, evs) := x in
  let* y := k a r in
  let '(b, r, evs') := y in
  ret (b, r, (evs ++ evs')%list).

Definition set_state (r : Impl) (s : RuntimeState) : Impl :=
  MkImpl (config r) s (user r) (start_time r) (loaded_classes r)
         (native_methods r) (event_callback r).

Definition set_config (r : Impl) (c : RuntimeConfig) : Impl :=
  MkImpl c (state r) (user r) (start_time r) (loaded_classes r)
         (native_methods r) (event_callback r).

Definition set_loaded_classes (r : Impl) (l : list string) : Impl :=
  MkImpl (config r) (state r) (user r) (start_time r) l
         (native_methods r) (event_callback r).

Definition set_native_methods (r : Impl) (m : gmap string Z) : Impl :=
  MkImpl (config r) (state r) (user r) (start_time r) (loaded_classes r)
         m (event_callback r).

Definition log (r : Impl) (message : string) : Logged unit :=
  match event_callback r with
  | Some cb => let* t := now in ret (tt, r, [MkLogEvent cb t message])
  | None => ret (tt, r, [])
  end.

(** [Impl()] *)
Definition new : Timed Impl :=
  let* t := now in
  ret (MkImpl RuntimeConfig_default NotInitialized "AnmiTaliDev" t [] ∅ None).

(** [loadClass]: the name is appended to the class table.  The [catch]
    of the source answers a failed allocation, which is not part of this
    model, so the call reports success. *)
Definition loadClass (r : Impl) (class_name : string) : Logged bool :=
  seq (log r ("Loading class: " +:+ class_name)) (fun _ r =>
  pure true (set_loaded_classes r (loaded_classes r ++ [class_name]))).

Definition core_classes : list string :=
  ["android.app.Activity"; "android.content.Context"; "android.os.Bundle";
   "android.view.View"].

(** The loop of [loadCoreClasses], over the classes still to load. *)
Fixpoint loadClasses (names : list string) (r : Impl) : Logged bool :=
  match names with
  | [] => pure true r
  | class_name :: names =>
      seq (loadClass r class_name) (fun loaded r =>
      if negb loaded then
        seq (log r ("Failed to load core class: " +:+ class_name)) (fun _ r =>
        pure false r)
      else loadClasses names r)
  end.

Definition loadCoreClasses (r : Impl) : Logged bool := loadClasses core_classes r.

Definition registerNativeMethod (r : Impl) (name : string) (func : Z) : Logged bool :=
  seq (log r ("Registering native method: " +:+ name)) (fun _ r =>
  pure true (set_native_methods r (<[name := func]> (native_methods r)))).

Definition native_funcs : list (string * Z) :=
  [("android.os.SystemClock.nativeCurrentTimeMillis", 0);
   ("android.os.SystemClock.nativeElapsedRealtime", 0);
   ("android.graphics.Canvas.nativeCreate", 0);
   ("android.view.Surface.nativeCreateFromSurfaceTexture", 0)].

(** The loop of [registerNativeMethods]. *)
Fixpoint registerAll (funcs : list (string * Z)) (r : Impl) : Logged bool :=
  match funcs with
  | [] => pure true r
  | (name, func) :: funcs =>
      seq (registerNativeMethod r name func) (fun registered r =>
      if negb registered then
        seq (log r ("Failed to register native method: " +:+ name)) (fun _ r =>
        pure false r)
      else registerAll funcs r)
  end.

Definition registerNativeMethods (r : Impl) : Logged bool :=
  registerAll native_funcs r.

Definition initializeVM (r : Impl) : Logged bool :=
  seq (log r "Initializing Android Runtime") (fun _ r =>
  seq (loadCoreClasses r) (fun loaded r =>
  if negb loaded then pure false r
  else
    seq (registerNativeMethods r) (fun registered r =>
    if negb registered then pure false r else pure true r))).

Definition initialize (r : Impl) (cfg : RuntimeConfig) : Logged bool :=
  let r := set_config r cfg in
  seq (initializeVM r) (fun booted r =>
  if negb booted then pure false (set_state r Error)
  else
    let r := set_state r Ready in
    seq (log r "Runtime initialized successfully") (fun _ r =>
    pure true r)).

(** [startActivity]: after the class is loaded the source goes straight
    to the state change. *)
Definition startActivity (r : Impl) (activity_name : string)
                         (savedInstanceState : Z) : Logged Result :=
  if decide (state r ≠ Ready) then pure RuntimeError r
  else
    seq (log r ("Starting activity: " +:+ activity_name)) (fun _ r =>
    seq (loadClass r activity_name) (fun loaded r =>
    if negb loaded then pure ClassNotFound r
    else pure Success (set_state r Running))).

Definition setEventCallback (r : Impl) (cb : option nat) : Impl :=
  MkImpl (config r) (state r) (user r) (start_time r) (loaded_classes r)
         (native_methods r) cb.

Definition shutdown (r : Impl) : Logged unit :=
  if decide (state r = Running ∨ state r = Ready) then
    seq (log r "Shutting down runtime") (fun _ r =>
    let r := set_loaded_classes r [] in
    let r := set_native_methods r ∅ in
    pure tt (set_state r Stopped))
  else pure tt r.

(** The lines a boot hands to the event callback, in order. *)
Definition boot_lines : list string :=
  ("Initializing Android Runtime"
   :: map (fun c => "Loading class: " +:+ c) core_classes
   ++ map (fun f => "Registering native method: " +:+ fst f) native_funcs
   ++ ["Runtime initialized successfully"])%list.

End Runtime.

(** * Properties *)

(** Unfolds the clock plumbing. *)
Ltac timed := unfold bind, ret, now in *; simpl in *.

(** ** The component lifecycle *)

Section ActivityFacts.
Import Activity.

(** A lifecycle call either is ignored or moves to the state its row of
    the table names. *)
Lemma call_table (c : Call) (a : Impl) (clk : Clock) :
  match spec_table c (value (state a)) with
  | Some v => value (state (fst (call c a clk))) = v
  | None => call c a clk = (a, clk)
  end.
Proof.
  destruct a as [pn an [v t] sv f lg ct wf ss].
  destruct c, v; reflexivity.
Qed.

Lemma call_spec_step (c : Call) (a : Impl) (clk : Clock) :
  value (state (fst (call c a clk))) = spec_step (value (state a)) c.
Proof.
  pose proof (call_table c a clk) as H. unfold spec_step.
  destruct (spec_table c (value (state a))); simpl; [done|].
  by rewrite H.
Qed.

Lemma run_calls_spec (cs : list Call) (a : Impl) (clk : Clock) :
  value (state (fst (run_calls cs a clk)))
  = foldl spec_step (value (state a)) cs.
Proof.
  revert a clk. induction cs as [|c cs IH]; intros a clk; [done|].
  simpl. unfold bind.
  pose proof (call_spec_step c a clk) as Hc.
  destruct (call c a clk) as [a' clk']. simpl in Hc.
  by rewrite IH, Hc.
Qed.

(** No lifecycle call touches the finishing flag. *)
Lemma call_is_finishing (c : Call) (a : Impl) (clk : Clock) :
  is_finishing (fst (call c a clk)) = is_finishing a.
Proof.
  destruct a as [pn an [v t] sv f lg ct wf ss].
  destruct c, v; reflexivity.
Qed.

(** An instance that is not finishing ends destroyed and finishing. *)
Lemma finish_fresh (a : Impl) (clk : Clock) :
  is_finishing a = false ->
  value (state (fst (finish a clk))) = Destroyed
  /\ is_finishing (fst (finish a clk)) = true.
Proof.
  destruct a as [pn an [v t] sv f lg ct wf ss]. simpl. intros ->.
  destruct v; split; reflexivity.
Qed.

Lemma op_finishing_is_destroyed (o : Op) (a : Impl) (clk : Clock) :
  finishing_is_destroyed a -> finishing_is_destroyed (fst (op o a clk)).
Proof.
  unfold finishing_is_destroyed. intros Inv.
  destruct o as [c| |s|b|i|]; simpl.
  - rewrite call_is_finishing, call_spec_step. intros Hf.
    rewrite (Inv Hf). by destruct c.
  - exact Inv.
  - exact Inv.
  - exact Inv.
  - exact Inv.
  - destruct (is_finishing a) eqn:Hf.
    + unfold finish. rewrite Hf. simpl. auto.
    + intros _. by apply finish_fresh.
Qed.

Lemma run_ops_finishing_is_destroyed (os : list Op) (a : Impl) (clk : Clock) :
  finishing_is_destroyed a -> finishing_is_destroyed (fst (run_ops os a clk)).
Proof.
  revert a clk. induction os as [|o os IH]; intros a clk Inv; [done|].
  simpl. unfold bind.
  pose proof (op_finishing_is_destroyed o a clk Inv) as Ho.
  destruct (op o a clk) as [a' clk']. by apply IH.
Qed.

(** Once set, the finishing flag stays set. *)
Lemma op_keeps_finishing (o : Op) (a : Impl) (clk : Clock) :
  is_finishing a = true -> is_finishing (fst (op o a clk)) = true.
Proof.
  intros Hf. destruct o as [c| |s|b|i|]; simpl; try exact Hf.
  - by rewrite call_is_finishing.
  - unfold finish. by rewrite Hf.
Qed.

Lemma run_ops_keeps_finishing (os : list Op) (a : Impl) (clk : Clock) :
  is_finishing a = true -> is_finishing (fst (run_ops os a clk)) = true.
Proof.
  revert a clk. induction os as [|o os IH]; intros a clk Hf; [done|].
  simpl. unfold bind.
  pose proof (op_keeps_finishing o a clk Hf) as Ho.
  destruct (op o a clk) as [a' clk']. by apply IH.
Qed.

Lemma path_to_reaches (v : Value) (clk : Clock) :
  value (state (fst (run_calls (path_to v) (fst (new clk)) (snd (new clk))))) = v.
Proof. rewrite run_calls_spec. by destruct v. Qed.

End ActivityFacts.

Section ActivityClaims.
Import Activity.

(** C2: after every finite sequence of lifecycle calls on a new instance,
    the state is the one the transition table of section 4.2 leads to
    from [Created]; and a further call either moves the state to the one
    its row of the table names or, when its guard fails, returns with the
    instance (and the clock) exactly as they were. *)
Theorem lifecycle_follows_table (cs : list Call) (c : Call) (clk clk' : Clock) :
  let a := fst (run_calls cs (fst (new clk)) (snd (new clk))) in
  value (state a) = foldl spec_step Created cs
  /\ match spec_table c (value (state a)) with
     | Some v => value (state (fst (call c a clk'))) = v
     | None => call c a clk' = (a, clk')
     end.
Proof.
  intros a. split.
  - subst a. by rewrite run_calls_spec.
  - apply call_table.
Qed.

(** C7: whatever was done to a component instance before, [finish] leaves
    it in [Destroyed] with the finishing flag set, and whatever is done to
    it afterwards it stays so: the flag is sticky.  Each of the six states
    is one an instance can be in, and [finish] from it ends in
    [Destroyed].  On an instance that is not yet finishing, [finish] is
    the flag being set, the log line, and then pause, stop and destroy run
    in sequence, each under its own guard. *)
Theorem finish_ends_destroyed (os os' : list Op) (clk clk' clk'' : Clock) :
  let a := fst (run_ops os (fst (new clk)) (snd (new clk))) in
  let a' := fst (run_ops os' (fst (finish a clk')) clk'') in
  (value (state (fst (finish a clk'))) = Destroyed
   /\ is_finishing (fst (finish a clk')) = true)
  /\ (value (state a') = Destroyed /\ is_finishing a' = true)
  /\ (forall v, exists cs,
        value (state (fst (run_calls cs (fst (new clk)) (snd (new clk))))) = v
        /\ value (state (fst (finish
             (fst (run_calls cs (fst (new clk)) (snd (new clk)))) clk'))) = Destroyed)
  /\ (forall b : Impl,
        let b0 := set_is_finishing b false in
        finish b0 clk'
        = (let* b1 := onPause (logLifecycleEvent (set_is_finishing b0 true)
                                                 "Activity finishing") in
           let* b2 := onStop b1 in
           onDestroy b2) clk').
Proof.
  intros a a'.
  assert (Hfin : value (state (fst (finish a clk'))) = Destroyed
                 /\ is_finishing (fst (finish a clk')) = true).
  { assert (Inv : finishing_is_destroyed a).
    { subst a. apply run_ops_finishing_is_destroyed. intros H. discriminate H. }
    destruct (is_finishing a) eqn:Hf.
    - unfold finish. rewrite Hf. simpl. auto.
    - by apply finish_fresh. }
  split; [exact Hfin|]. split; [|split].
  - assert (Hf' : is_finishing a' = true).
    { subst a'. apply run_ops_keeps_finishing. apply Hfin. }
    split; [|exact Hf'].
    subst a'. apply run_ops_finishing_is_destroyed; [|exact Hf'].
    intros _. apply Hfin.
  - intros v. exists (path_to v). split.
    + apply path_to_reaches.
    + destruct v; reflexivity.
  - intros b b0. reflexivity.
Qed.

(** C9: saving the instance state and restoring the snapshot at once
    gives back the focus flag and the finishing flag the instance had
    (which are also the two flags the snapshot carries), and neither the
    save nor the restore changes the lifecycle state. *)
Theorem save_restore_roundtrip (a : Impl) (clk : Clock) :
  let saved := fst (onSaveInstanceState a clk) in
  let a1 := fst saved in
  let snapshot := snd saved in
  let a2 := onRestoreInstanceState a1 snapshot in
  has_window_focus a2 = has_window_focus a
  /\ is_finishing a2 = is_finishing a
  /\ ss_has_focus snapshot = has_window_focus a
  /\ ss_is_finishing snapshot = is_finishing a
  /\ state a1 = state a
  /\ state a2 = state a.
Proof. repeat split. Qed.

(** C10, as amended: [onRestoreInstanceState] stores the snapshot, sets
    the window-focus flag from the snapshot's [has_focus] and appends one
    line to the lifecycle log; every other field, in particular the
    finishing flag and the lifecycle state, is as before, whatever the
    snapshot's [is_finishing] says. *)
Theorem restore_frame (a : Impl) (s : SavedState) :
  let a' := onRestoreInstanceState a s in
  saved_state a' = s
  /\ has_window_focus a' = ss_has_focus s
  /\ lifecycle_log a' = (lifecycle_log a ++ [log_line a "Restoring instance state"])%list
  /\ is_finishing a' = is_finishing a
  /\ state a' = state a
  /\ package_name a' = package_name a
  /\ activity_name a' = activity_name a
  /\ system_services a' = system_services a
  /\ create_time a' = create_time a.
Proof. repeat split. Qed.

(** C10 as stated fails: on a new instance, restoring a snapshot changes
    more than the stored snapshot and the focus flag (the log grows). *)
Lemma restore_changes_log :
  let a := fst (new (frozen 0)) in
  let s := MkSavedState 0 [] true true in
  onRestoreInstanceState a s
  <> set_has_window_focus (set_saved_state a s) (ss_has_focus s).
Proof. intros a s H. discriminate H. Qed.

End ActivityClaims.

(** ** The capability gateway *)

Section APIFacts.
Import API.

Lemma to_seconds_ge_1 (d : Z) : to_seconds d >= 1 <-> d >= ticks_per_second.
Proof.
  unfold to_seconds, ticks_per_second.
  destruct (Z_lt_le_dec d 0) as [Hneg|Hpos].
  - pose proof (Z.quot_opp_l d 1000000000 ltac:(lia)) as Ho.
    assert (0 <= Z.quot (- d) 1000000000) by (apply Z.quot_pos; lia).
    lia.
  - rewrite Z.quot_div_nonneg by lia.
    split; intros H.
    + destruct (Z_lt_le_dec d 1000000000) as [Hlt|Hge]; [|lia].
      rewrite Z.div_small in H by lia. lia.
    + assert (1 <= d / 1000000000); [|lia].
      apply Z.div_le_lower_bound; lia.
Qed.

(** A call inside the window with room left is admitted and counted. *)
Lemma checkRateLimit_admit (g : Impl) (clk : Clock) :
  readings clk (cursor clk) - last_rate_reset g < ticks_per_second ->
  api_calls_count g < MAX_API_CALLS_PER_SECOND ->
  checkRateLimit g clk
  = ((true, MkImpl (state g) (handlers g) (last_rate_reset g) (api_calls_count g + 1)),
     MkClock (readings clk) (S (cursor clk))).
Proof.
  intros Hw Hc. unfold checkRateLimit. timed.
  destruct (decide (to_seconds _ >= 1)) as [He|He].
  { apply to_seconds_ge_1 in He. lia. }
  destruct (decide (api_calls_count g >= MAX_API_CALLS_PER_SECOND)); [lia|done].
Qed.

(** A call inside the window with the capacity used up is rejected and
    leaves the limiter as it is. *)
Lemma checkRateLimit_reject (g : Impl) (clk : Clock) :
  readings clk (cursor clk) - last_rate_reset g < ticks_per_second ->
  api_calls_count g >= MAX_API_CALLS_PER_SECOND ->
  checkRateLimit g clk = ((false, g), MkClock (readings clk) (S (cursor clk))).
Proof.
  intros Hw Hc. unfold checkRateLimit. timed.
  destruct (decide (to_seconds _ >= 1)) as [He|He].
  { apply to_seconds_ge_1 in He. lia. }
  destruct (decide (api_calls_count g >= MAX_API_CALLS_PER_SECOND)); [done|lia].
Qed.

(** A call after the window has elapsed restarts the window at the
    reading and is admitted as its first request. *)
Lemma checkRateLimit_reset (g : Impl) (clk : Clock) :
  readings clk (cursor clk) - last_rate_reset g >= ticks_per_second ->
  checkRateLimit g clk
  = ((true, MkImpl (state g) (handlers g) (readings clk (cursor clk)) 1),
     MkClock (readings clk) (S (cursor clk))).
Proof.
  intros Hw. unfold checkRateLimit. timed.
  destruct (decide (to_seconds _ >= 1)) as [He|He].
  - simpl. destruct (decide (0 >= MAX_API_CALLS_PER_SECOND)) as [H|H]; [|done].
    unfold MAX_API_CALLS_PER_SECOND in H. lia.
  - exfalso. apply He. by apply to_seconds_ge_1.
Qed.

Lemma in_window_step (g : Impl) (clk : Clock) (n : nat) (k : Z) :
  in_window g clk (S n) ->
  readings clk (cursor clk) - last_rate_reset g < ticks_per_second
  /\ in_window (MkImpl (state g) (handlers g) (last_rate_reset g) k)
               (MkClock (readings clk) (S (cursor clk))) n.
Proof.
  intros H. split.
  - specialize (H 0%nat ltac:(lia)). by rewrite Nat.add_0_r in H.
  - intros i Hi. specialize (H (S i) ltac:(lia)). cbn [readings cursor last_rate_reset].
    replace (S (cursor clk) + i)%nat with (cursor clk + S i)%nat by lia.
    exact H.
Qed.

(** Inside one window, requests are admitted as long as there is room. *)
Lemma window_admits (n : nat) (g : Impl) (clk : Clock) :
  in_window g clk n ->
  api_calls_count g + Z.of_nat n <= MAX_API_CALLS_PER_SECOND ->
  checkRateLimit_n n g clk
  = ((replicate n true,
      MkImpl (state g) (handlers g) (last_rate_reset g)
             (api_calls_count g + Z.of_nat n)),
     MkClock (readings clk) (cursor clk + n)).
Proof.
  revert g clk. induction n as [|n IH]; intros g clk Hw Hc.
  - simpl. unfold ret. destruct g, clk; simpl.
    by rewrite Z.add_0_r, Nat.add_0_r.
  - apply (in_window_step _ _ _ (api_calls_count g + 1)) in Hw as [H0 Hw].
    cbn [checkRateLimit_n]. unfold bind at 1.
    rewrite checkRateLimit_admit by (done || lia).
    unfold bind; simpl snd. rewrite IH; [|done|simpl; lia].
    simpl. unfold ret. do 3 f_equal; lia.
Qed.

(** Once the capacity is used up, the rest of the window is rejected. *)
Lemma window_rejects (n : nat) (g : Impl) (clk : Clock) :
  in_window g clk n ->
  api_calls_count g >= MAX_API_CALLS_PER_SECOND ->
  checkRateLimit_n n g clk
  = ((replicate n false, g), MkClock (readings clk) (cursor clk + n)).
Proof.
  revert clk. induction n as [|n IH]; intros clk Hw Hc.
  - simpl. unfold ret. destruct clk; simpl. by rewrite Nat.add_0_r.
  - assert (Hw' := Hw).
    apply (in_window_step _ _ _ (api_calls_count g)) in Hw' as [H0 Hw'].
    cbn [checkRateLimit_n]. unfold bind at 1.
    rewrite checkRateLimit_reject by done.
    unfold bind; simpl snd. destruct g as [st hs lr cnt].
    rewrite IH; [|exact Hw'|exact Hc].
    simpl. unfold ret. do 2 f_equal. lia.
Qed.

(** A request the limiter rejects is answered with "Rate limit exceeded"
    and reaches no handler. *)
Lemma handleRequest_rate_limited (g g1 : Impl) (req : APIRequest) (clk clk1 : Clock) :
  initialized (state g) = true ->
  checkRateLimit g clk = ((false, g1), clk1) ->
  handleRequest g req clk
  = ((g1, [Responded (callback req) (MkAPIResponse false "" "Rate limit exceeded")],
      None), clk1).
Proof.
  intros Hi Hr. unfold handleRequest. rewrite Hi. cbn [negb].
  unfold bind. by rewrite Hr.
Qed.

Lemma checkRateLimit_n_app (n m : nat) (g : Impl) (clk : Clock) :
  checkRateLimit_n (n + m) g clk
  = (let* r := checkRateLimit_n n g in
     let* r' := checkRateLimit_n m (snd r) in
     ret ((fst r ++ fst r')%list, snd r')) clk.
Proof.
  revert g clk. induction n as [|n IH]; intros g clk.
  - simpl. unfold bind, ret. simpl.
    by destruct (checkRateLimit_n m g clk) as [[rs g'] clk'].
  - cbn [Nat.add checkRateLimit_n]. unfold bind, ret in *.
    destruct (checkRateLimit g clk) as [[b g1] clk1]. simpl.
    rewrite IH.
    destruct (checkRateLimit_n n g1 clk1) as [[rs g2] clk2]. simpl.
    by destruct (checkRateLimit_n m g2 clk2) as [[rs' g3] clk3].
Qed.

(** A window with room for [k] more requests admits [k] and rejects the
    next one, which leaves the counter at the capacity. *)
Lemma window_fills (k : nat) (g : Impl) (clk : Clock) :
  api_calls_count g + Z.of_nat k = MAX_API_CALLS_PER_SECOND ->
  in_window g clk (k + 1) ->
  checkRateLimit_n (k + 1) g clk
  = (((replicate k true ++ [false])%list,
      MkImpl (state g) (handlers g) (last_rate_reset g) MAX_API_CALLS_PER_SECOND),
     MkClock (readings clk) (cursor clk + (k + 1))).
Proof.
  intros Hc Hw.
  assert (Hwk : in_window g clk k).
  { intros i Hi. apply Hw. lia. }
  rewrite checkRateLimit_n_app. unfold bind at 1.
  rewrite (window_admits k g clk Hwk) by lia.
  cbn [fst snd]. unfold bind at 1. rewrite Hc.
  rewrite (window_rejects 1 _ _).
  - unfold ret. cbn [fst snd readings cursor]. do 2 f_equal. lia.
  - intros i Hi. cbn [readings cursor last_rate_reset].
    replace (cursor clk + k + i)%nat with (cursor clk + k)%nat by lia.
    apply Hw. lia.
  - cbn [api_calls_count]. lia.
Qed.

End APIFacts.

Section APIClaims.
Import API.

(** C3: the limiter's window is one second and its capacity 1000, for
    clock readings at which the source's 64-bit subtraction from the last
    reset is exact.  From a window in which nothing has been counted yet,
    1001 requests whose readings all lie less than a second after the last
    reset get 1000 admissions followed by one rejection; the counter
    stands at 1000 after the 1000th request and still at 1000 after the
    rejected one.  A request whose reading lies a second or more after the
    last reset sets the counter back, whatever it was, restarts the window
    at that reading and is admitted as the first request of the new
    window; with 1000 further requests less than a second after it, the
    new window again admits 1000 requests in all and rejects the 1001st. *)
Theorem rate_limit_fixed_window :
  MAX_API_CALLS_PER_SECOND = 1000
  /\ (forall d, to_seconds d >= 1 <-> d >= ticks_per_second)
  /\ (forall (g : Impl) (clk : Clock),
        api_calls_count g = 0 ->
        readings_exact g clk 1001 ->
        in_window g clk 1001 ->
        checkRateLimit_n 1000 g clk
        = ((replicate 1000 true,
            MkImpl (state g) (handlers g) (last_rate_reset g) 1000),
           MkClock (readings clk) (cursor clk + 1000))
        /\ checkRateLimit_n 1001 g clk
           = (((replicate 1000 true ++ [false])%list,
               MkImpl (state g) (handlers g) (last_rate_reset g) 1000),
              MkClock (readings clk) (cursor clk + 1001)))
  /\ (forall (g : Impl) (clk : Clock),
        exact_at g (readings clk (cursor clk)) ->
        readings clk (cursor clk) - last_rate_reset g >= ticks_per_second ->
        checkRateLimit g clk
        = ((true, MkImpl (state g) (handlers g) (readings clk (cursor clk)) 1),
           MkClock (readings clk) (S (cursor clk))))
  /\ (forall (g : Impl) (clk : Clock),
        let t := readings clk (cursor clk) in
        exact_at g t ->
        t - last_rate_reset g >= ticks_per_second ->
        (forall i : nat, (1 <= i <= 1000)%nat ->
           fits_int64 (readings clk (cursor clk + i))
           /\ fits_int64 (readings clk (cursor clk + i) - t)
           /\ readings clk (cursor clk + i) - t < ticks_per_second) ->
        checkRateLimit_n 1001 g clk
        = (((replicate 1000 true ++ [false])%list,
            MkImpl (state g) (handlers g) t 1000),
           MkClock (readings clk) (cursor clk + 1001))).
Proof.
  split; [reflexivity|]. split; [apply to_seconds_ge_1|]. split; [|split].
  - intros g clk Hc _ Hw. split.
    + rewrite window_admits.
      * by rewrite Hc.
      * intros i Hi. apply Hw. lia.
      * rewrite Hc. unfold MAX_API_CALLS_PER_SECOND. lia.
    + apply (window_fills 1000 g clk); [by rewrite Hc|exact Hw].
  - intros g clk _. apply checkRateLimit_reset.
  - intros g clk t _ Ht Hw.
    change 1001%nat with (S (999 + 1)). cbn [checkRateLimit_n]. unfold bind at 1.
    rewrite checkRateLimit_reset by exact Ht. cbn [fst snd]. unfold bind at 1.
    rewrite window_fills.
    + unfold ret. cbn [fst snd state handlers last_rate_reset readings cursor].
      do 2 f_equal. lia.
    + reflexivity.
    + intros i Hi. cbn [readings cursor last_rate_reset].
      replace (S (cursor clk) + i)%nat with (cursor clk + S i)%nat by lia.
      apply Hw. lia.
Qed.

(** C3 at concrete inputs: a new gateway under a clock that stands still
    at the time of construction admits 1000 requests and rejects the next;
    the gateway this leaves, with its counter at 1000, admits a request
    one second later as the first of a new window, and under a clock that
    stands still at that later time admits 1000 requests and rejects the
    next. *)
Lemma rate_limit_fixed_window_witness :
  let g := fst (new (frozen 5)) in
  let full := snd (fst (checkRateLimit_n 1001 g (frozen 5))) in
  let later := frozen (5 + ticks_per_second) in
  fst (fst (checkRateLimit_n 1001 g (frozen 5))) = (replicate 1000 true ++ [false])%list
  /\ api_calls_count full = 1000
  /\ fst (checkRateLimit full later)
     = (true, MkImpl (state g) (handlers g) (5 + ticks_per_second) 1)
  /\ fst (fst (checkRateLimit_n 1001 full later)) = (replicate 1000 true ++ [false])%list.
Proof.
  intros g full later.
  destruct rate_limit_fixed_window as (_ & _ & Hin & Hout & Hnext).
  assert (Hfull : full = MkImpl (state g) (handlers g) 5 1000).
  { subst full. destruct (Hin g (frozen 5)) as [_ ->]; [reflexivity| | |reflexivity].
    - intros i _. unfold exact_at, fits_int64. simpl. lia.
    - intros i _. unfold ticks_per_second. simpl. lia. }
  assert (Hexact : exact_at (MkImpl (state g) (handlers g) 5 1000)
                            (5 + ticks_per_second)).
  { unfold exact_at, fits_int64, ticks_per_second. simpl. lia. }
  split; [|split; [|split]].
  - destruct (Hin g (frozen 5)) as [_ ->]; [reflexivity| | |reflexivity].
    + intros i _. unfold exact_at, fits_int64. simpl. lia.
    + intros i _. unfold ticks_per_second. simpl. lia.
  - by rewrite Hfull.
  - rewrite Hfull. subst later. rewrite Hout; [reflexivity|exact Hexact|].
    unfold ticks_per_second. simpl. lia.
  - rewrite Hfull. subst later. rewrite Hnext; [reflexivity|exact Hexact| |].
    + unfold ticks_per_second. simpl. lia.
    + intros i _. unfold fits_int64, ticks_per_second. simpl. lia.
Defined.

(** C8: on a gateway that has not been initialised, [handleRequest]
    hands the request's callback the failure response with the message
    "API not initialized", whatever the method and the parameters; it
    invokes no handler, leaves the gateway and the rate limiter as they
    are, and returns. *)
Theorem handleRequest_not_initialized (g : Impl) (req : APIRequest) (clk : Clock) :
  initialized (state g) = false ->
  handleRequest g req clk
  = ((g, [Responded (callback req) (MkAPIResponse false "" "API not initialized")],
      None), clk).
Proof. intros H. unfold handleRequest. by rewrite H. Qed.

Lemma handleRequest_not_initialized_witness :
  let g := fst (new (frozen 0)) in
  let req := MkAPIRequest "getApiLevel" ∅ 7 in
  handleRequest g req (frozen 0)
  = ((g, [Responded 7 (MkAPIResponse false "" "API not initialized")], None),
     frozen 0).
Proof.
  intros g req. apply (handleRequest_not_initialized g req (frozen 0)).
  reflexivity.
Defined.

(** C6, as amended: on an initialised gateway, when the request is
    admitted and the handler registered for its method throws an
    exception derived from [std::exception], [handleRequest] hands the
    request's callback the failure response whose message is
    "Handler error: " followed by the exception's text, after whatever
    the handler did before it threw, and returns: nothing reaches the
    caller. *)
Theorem handler_fault_is_reported
    (g g1 g2 : Impl) (req : APIRequest) (h : Handler) (clk clk1 : Clock)
    (evs : list Event) (what : string) :
  initialized (state g) = true ->
  checkRateLimit g clk = ((true, g1), clk1) ->
  handlers g1 !! method req = Some h ->
  invoke h g1 req = (g2, evs, Some (StdException what)) ->
  handleRequest g req clk
  = ((g2,
      (Invoked (method req) :: evs
       ++ [Responded (callback req)
             (MkAPIResponse false "" ("Handler error: " +:+ what))])%list,
      None), clk1).
Proof.
  intros Hi Hr Hh Hf. unfold handleRequest.
  rewrite Hi. cbn [negb]. unfold bind. rewrite Hr. cbn [negb].
  rewrite Hh, Hf. reflexivity.
Qed.

Lemma handler_fault_is_reported_witness :
  let g := try_initialize (fst (new (frozen 0))) example_config in
  let req := MkAPIRequest "checkPermission" ∅ 7 in
  fst (handleRequest g req (frozen 0))
  = (MkImpl (state g) (handlers g) (last_rate_reset g) 1,
     [Invoked "checkPermission";
      Responded 7 (MkAPIResponse false "" "Handler error: map::at")], None).
Proof.
  intros g req.
  rewrite (handler_fault_is_reported g
             (MkImpl (state g) (handlers g) (last_rate_reset g) 1)
             (MkImpl (state g) (handlers g) (last_rate_reset g) 1) req
             CheckPermission (frozen 0) (MkClock (fun _ => 0) 1) [] "map::at");
    reflexivity.
Defined.

(** C6 as stated fails: a handler that throws a value that is not a
    [std::exception] is not caught; the exception reaches the caller of
    [handleRequest] and the callback gets no response. *)
Lemma foreign_fault_propagates :
  let g := registerHandler (try_initialize (fst (new (frozen 0))) example_config)
             "boom" (Custom (fun _ => ([], Some ForeignException))) in
  let req := MkAPIRequest "boom" ∅ 7 in
  fst (handleRequest g req (frozen 0))
  = (MkImpl (state g) (handlers g) (last_rate_reset g) 1,
     [Invoked "boom"], Some ForeignException).
Proof. reflexivity. Qed.

End APIClaims.

(** ** The package loader *)

Section ExecutorFacts.
Import Executor.

Lemma updateState_frame (l : Impl) (os : OS) (s : ExecutionState) :
  let l' := fst (updateState l os s) in
  let os' := snd (updateState l os s) in
  state l' = s /\ dex_data l' = dex_data l /\ dex_size l' = dex_size l
  /\ loaded_libs l' = loaded_libs l /\ apk_info l' = apk_info l
  /\ mapped os' = mapped os /\ dl_handles os' = dl_handles os.
Proof. unfold updateState. simpl. by destruct (event_callback l). Qed.

Lemma store_length (bytes region : list Z) :
  length (store bytes region) = length region.
Proof.
  unfold store. rewrite length_app, length_take, length_drop. lia.
Qed.

(** [extractDex] maps nothing, or exactly one region that the loader
    then holds; it fails only without having mapped anything. *)
Lemma extractDex_effect (env : Env) (l : Impl) (os : OS) (path : string) :
  let '(ok, l', os') := extractDex env l os path in
  loaded_libs l' = loaded_libs l /\ dl_handles os' = dl_handles os
  /\ (nothing_mapped l os l' os' \/ (ok = true /\ region_mapped l os l' os')).
Proof.
  unfold extractDex.
  destruct (zip_open env path) as [[[st|]]|]; simpl.
  - unfold mmap. simpl.
    destruct (decide (entry_size st <= 0)) as [Hs|Hs]; simpl.
    { repeat split; left; split; [done|by right]. }
    destruct (mmap_fails env (entry_size st)); simpl.
    { repeat split; left; split; [done|by right]. }
    set (addr := fresh ({[0; MAP_FAILED]} ∪ dom (mapped os))).
    assert (Hfresh : addr ∉ {[0; MAP_FAILED]} ∪ dom (mapped os)) by apply is_fresh.
    assert (addr ≠ 0) by set_solver.
    assert (addr ≠ MAP_FAILED) by set_solver.
    assert (Hnone : mapped os !! addr = None).
    { apply not_elem_of_dom. set_solver. }
    destruct (decide (addr = MAP_FAILED)) as [|_]; [done|].
    repeat split; [by destruct (entry_bytes st)..|].
    right. split; [done|]. unfold region_mapped. simpl.
    repeat split; [done..|].
    destruct (entry_bytes st) as [bytes|]; simpl.
    + exists (store bytes (replicate (Z.to_nat (entry_size st)) 0)). split.
      * by rewrite alter_insert_eq.
      * rewrite store_length, length_replicate. lia.
    + exists (replicate (Z.to_nat (entry_size st)) 0). split; [done|].
      rewrite length_replicate. lia.
  - repeat split. left. split; [done|by left].
  - repeat split. left. split; [done|by left].
Qed.

(** A load attempt that does not succeed maps nothing; one that succeeds
    maps nothing or one region. *)
Lemma loadApk_effect (env : Env) (l : Impl) (os : OS) (path : string) (clk : Clock) :
  let '(r, l', os') := fst (loadApk env l os path clk) in
  loaded_libs l' = loaded_libs l /\ dl_handles os' = dl_handles os
  /\ (nothing_mapped l os l' os' \/ (r = Success /\ region_mapped l os l' os')).
Proof.
  unfold loadApk.
  destruct (updateState l os Loading) as [l1 os1] eqn:H1.
  pose proof (updateState_frame l os Loading) as F1. rewrite H1 in F1.
  simpl in F1. destruct F1 as (_ & Fd & Fs & Fl & _ & Fm & Fh).
  assert (Failed : forall (l2 : Impl) (r : Result),
    dex_data l2 = dex_data l1 -> dex_size l2 = dex_size l1 ->
    loaded_libs l2 = loaded_libs l1 ->
    let '(r', l', os') :=
      (r, fst (updateState l2 os1 Error), snd (updateState l2 os1 Error)) in
    loaded_libs l' = loaded_libs l /\ dl_handles os' = dl_handles os
    /\ (nothing_mapped l os l' os' \/ (r' = Success /\ region_mapped l os l' os'))).
  { intros l2 r Hd Hs Hl.
    pose proof (updateState_frame l2 os1 Error) as F2. simpl in F2.
    destruct F2 as (_ & Gd & Gs & Gl & _ & Gm & Gh).
    rewrite Gl, Gh, Hl, Fl, Fh. split; [done|]. split; [done|].
    left. unfold nothing_mapped. rewrite Gm, Gd, Gs, Hd, Hs, Fm, Fd, Fs. auto. }
  destruct (fs_exists env path) as [what|[|]].
  - specialize (Failed (set_last_error l1 what) RuntimeError eq_refl eq_refl eq_refl).
    by destruct (updateState (set_last_error l1 what) os1 Error).
  - timed.
    pose proof (extractDex_effect env
      (set_apk_info l1
         (MkApkInfo "com.example.test" "1.0.0" 1 "21" "33"
            (permissions (apk_info l1)) "com.example.test.MainActivity" path
            (readings clk (cursor clk)))) os1 path) as E.
    destruct (extractDex _ _ _ _) as [[ok l2] os2]. simpl in E.
    destruct E as (El & Eh & E).
    assert (K : forall s r, r = Success \/ ok = false ->
      let '(r', l', os') := (r, fst (updateState l2 os2 s), snd (updateState l2 os2 s)) in
      loaded_libs l' = loaded_libs l /\ dl_handles os' = dl_handles os
      /\ (nothing_mapped l os l' os' \/ (r' = Success /\ region_mapped l os l' os'))).
    { intros s r Hr.
      pose proof (updateState_frame l2 os2 s) as F2. simpl in F2.
      destruct F2 as (_ & Gd & Gs & Gl & _ & Gm & Gh).
      rewrite Gl, Gh, El, Eh, Fl, Fh. split; [done|]. split; [done|].
      unfold nothing_mapped, region_mapped in *. simpl in E.
      rewrite Gm, Gd, Gs. rewrite ?Fm, ?Fd, ?Fs in E.
      destruct E as [E|[Eok Er]]; [by left|].
      destruct Hr as [-> | Hr]; [by right|congruence]. }
    destruct ok; simpl.
    + specialize (K Stopped Success (or_introl eq_refl)).
      by destruct (updateState l2 os2 Stopped).
    + specialize (K Error RuntimeError (or_intror eq_refl)).
      by destruct (updateState l2 os2 Error).
  - specialize (Failed (set_last_error l1 "APK file not found") InvalidApk
                       eq_refl eq_refl eq_refl).
    by destruct (updateState (set_last_error l1 "APK file not found") os1 Error).
Qed.

Lemma loadApk_holds_region (env : Env) (l : Impl) (os : OS) (path : string)
      (clk : Clock) :
  holds_region l os ->
  let '(r, l', os') := fst (loadApk env l os path clk) in
  holds_region l' os'.
Proof.
  intros (W0 & W1 & Hr).
  pose proof (loadApk_effect env l os path clk) as E.
  destruct (fst (loadApk env l os path clk)) as [[r l'] os'].
  destruct E as (_ & _ & [[Hm Hd]|[_ (R0 & R1 & R2 & region & R3 & R4)]]).
  - unfold holds_region. rewrite Hm. split; [done|]. split; [done|].
    destruct Hd as [[-> ->] | ->]; [done|]. intros _ H. by destruct H.
  - unfold holds_region. rewrite R3.
    rewrite !lookup_insert_ne by done. split; [done|]. split; [done|].
    intros _ _. exists region. by rewrite lookup_insert_eq.
Qed.

Lemma foldl_dlclose (libs : list Z) (os : OS) :
  mapped (foldl dlclose os libs) = mapped os
  /\ dl_handles (foldl dlclose os libs)
     = foldl (fun hs h => remove_one h hs) (dl_handles os) libs.
Proof.
  revert os. induction libs as [|h libs IH]; intros os; [done|].
  simpl. destruct (IH (dlclose os h)) as [-> ->]. done.
Qed.

Lemma remove_one_Permutation (h : Z) (l : list Z) :
  h ∈ l -> l ≡ₚ h :: remove_one h l.
Proof.
  induction l as [|x l IH]; intros Hin.
  - by apply elem_of_nil in Hin.
  - simpl. destruct (decide (x = h)) as [-> | Hne]; [done|].
    apply elem_of_cons in Hin as [-> | Hin]; [done|].
    rewrite (IH Hin) at 1. apply Permutation_swap.
Qed.

(** Closing the handles of [libs] one by one leaves open exactly what
    was open besides them. *)
Lemma close_all (libs hs rest : list Z) :
  hs ≡ₚ libs ++ rest ->
  foldl (fun hs h => remove_one h hs) hs libs ≡ₚ rest.
Proof.
  revert hs. induction libs as [|h libs IH]; intros hs Hp; [done|].
  simpl. apply IH.
  assert (Hin : h ∈ hs) by (rewrite Hp; simpl; apply elem_of_cons; auto).
  apply remove_one_Permutation in Hin. rewrite Hin in Hp at 1.
  simpl in Hp. by apply (inj (h ::.)) in Hp.
Qed.

(** Teardown takes the loader's region out of the mappings and touches
    no other. *)
Lemma destroy_mapped (l : Impl) (os : OS) :
  holds_region l os ->
  mapped (destroy l os) = delete (dex_data l) (mapped os).
Proof.
  intros (W0 & W1 & Hr). unfold destroy.
  destruct (foldl_dlclose (loaded_libs l)
              (if decide (dex_data l ≠ 0)
               then munmap os (dex_data l) (dex_size l) else os)) as [-> _].
  destruct (decide (dex_data l ≠ 0)) as [Hn|Hz].
  - unfold munmap. destruct (decide (dex_data l = MAP_FAILED)) as [Hf|Hf].
    + rewrite Hf, W1. by rewrite delete_id.
    + destruct (Hr Hn Hf) as (region & -> & Hlen).
      by rewrite decide_True.
  - assert (dex_data l = 0) as -> by (destruct (decide (dex_data l = 0)); tauto).
    by rewrite delete_id.
Qed.

(** The parts of the load contract that hold. *)
Lemma loadApk_not_found (env : Env) (l : Impl) (os : OS) (path : string)
      (clk : Clock) :
  fs_exists env path = inr false ->
  let '(r, l', os') := fst (loadApk env l os path clk) in
  r = InvalidApk /\ state l' = Error /\ last_error l' = "APK file not found".
Proof.
  intros H. unfold loadApk, updateState.
  destruct l as [ai st cfg le [cb|] ec ir dd ds ll]; simpl; rewrite H; done.
Qed.

Lemma loadApk_unopenable (env : Env) (l : Impl) (os : OS) (path : string)
      (clk : Clock) :
  fs_exists env path = inr true -> zip_open env path = None ->
  let '(r, l', os') := fst (loadApk env l os path clk) in
  r = RuntimeError /\ state l' = Error /\ last_error l' = "Failed to open APK file".
Proof.
  intros H Hz. unfold loadApk, updateState, extractDex.
  destruct l as [ai st cfg le [cb|] ec ir dd ds ll]; simpl; rewrite H; timed;
    rewrite Hz; done.
Qed.

End ExecutorFacts.

Section ExecutorClaims.
Import Executor.

(** C1 at the inputs where the code departs from it.  An archive that
    exists and opens but has no [classes.dex] entry: [loadApk] returns
    [Success] with the bytecode pointer still null and nothing mapped.
    An archive whose entry is found but cannot be opened for reading:
    [loadApk] returns [Success] with a region of zero bytes into which
    nothing was copied. *)
Theorem loadApk_succeeds_without_bytecode :
  (let '(r, l, os) := fst (loadApk (host_with None) new idle "app.apk" (frozen 0)) in
   r = Success /\ state l = Stopped /\ dex_data l = 0 /\ dex_size l = 0
   /\ mapped os = ∅)
  /\ (let '(r, l, os) :=
        fst (loadApk (host_with (Some (MkZipEntry 4 None))) new idle "app.apk"
                     (frozen 0)) in
      r = Success /\ state l = Stopped
      /\ mapped os !! dex_data l = Some [0; 0; 0; 0]).
Proof. split; vm_compute; repeat split. Qed.

(** What teardown does release: in whatever [ExecutionState] the loader
    is, it takes the region the loader's pointer names out of the
    process's mappings, touches no other mapping, and closes every library
    handle the loader holds, so that what stays open is what was open
    besides them.  A load attempt that does not succeed maps nothing new.
    And a new loader, after one load attempt however it ends, is torn down
    to exactly the mappings there were before it.  (A region the pointer
    no longer names is not released: [teardown_after_failed_load_leaks].) *)
Theorem teardown_releases_everything :
  (forall (l : Impl) (os : OS) (rest : list Z) (st : ExecutionState),
      holds_region l os ->
      dl_handles os ≡ₚ loaded_libs l ++ rest ->
      let os' := destroy (set_state l st) os in
      mapped os' = delete (dex_data l) (mapped os)
      /\ mapped os' !! dex_data l = None
      /\ dl_handles os' ≡ₚ rest)
  /\ (forall (env : Env) (l : Impl) (os : OS) (path : string) (clk : Clock),
        holds_region l os ->
        let '(r, l', os') := fst (loadApk env l os path clk) in
        r ≠ Success ->
        mapped os' = mapped os
        /\ dom (mapped (destroy l' os')) ⊆ dom (mapped os))
  /\ (forall (env : Env) (os : OS) (path : string) (clk : Clock),
        holds_region new os ->
        let '(r, l', os') := fst (loadApk env new os path clk) in
        mapped (destroy l' os') = mapped os).
Proof.
  split; [|split].
  - intros l os rest st Hh Hp os'.
    assert (Hm : mapped os' = delete (dex_data l) (mapped os)).
    { subst os'. by rewrite destroy_mapped. }
    split; [done|]. split.
    + rewrite Hm. apply lookup_delete_eq.
    + subst os'. unfold destroy.
      destruct (foldl_dlclose (loaded_libs (set_state l st))
                  (if decide (dex_data (set_state l st) ≠ 0)
                   then munmap os (dex_data (set_state l st))
                               (dex_size (set_state l st))
                   else os)) as [_ ->].
      apply close_all.
      destruct (decide _); [|done].
      unfold munmap. destruct (mapped os !! _); [|done].
      by destruct (decide _).
  - intros env l os path clk Hh.
    pose proof (loadApk_effect env l os path clk) as E.
    pose proof (loadApk_holds_region env l os path clk Hh) as Hh'.
    destruct (fst (loadApk env l os path clk)) as [[r l'] os'].
    intros Hr. destruct E as (_ & _ & [[Hm _]|[? _]]); [|done].
    split; [done|].
    rewrite destroy_mapped by done. rewrite Hm, dom_delete_L.
    by apply subseteq_difference_l.
  - intros env os path clk Hh.
    pose proof (loadApk_effect env new os path clk) as E.
    pose proof (loadApk_holds_region env new os path clk Hh) as Hh'.
    destruct (fst (loadApk env new os path clk)) as [[r l'] os'].
    rewrite destroy_mapped by done.
    destruct Hh as (W0 & W1 & _).
    destruct E as (_ & _ & [[Hm Hd]|[_ (R0 & R1 & R2 & region & R3 & R4)]]).
    + rewrite Hm. destruct Hd as [[-> _] | ->]; by rewrite delete_id.
    + rewrite R3. by rewrite delete_insert_id.
Qed.

(** At concrete inputs: a loader in the [Error] state that holds a
    region and two handles; a load of a path that does not exist; and a
    load that succeeds. *)
Lemma teardown_releases_everything_witness :
  (mapped (destroy holding busy) = ∅ /\ dl_handles (destroy holding busy) ≡ₚ [5])
  /\ (let '(r, l', os') := fst (loadApk empty_host holding busy "none.apk" (frozen 0)) in
      r = InvalidApk /\ mapped os' = mapped busy)
  /\ (let '(r, l', os') :=
        fst (loadApk (host_with (Some (MkZipEntry 4 (Some [1; 2; 3; 4]))))
                     new idle "app.apk" (frozen 0)) in
      r = Success /\ mapped os' !! dex_data l' = Some [1; 2; 3; 4]
      /\ mapped (destroy l' os') = ∅).
Proof.
  destruct teardown_releases_everything as (Hdestroy & Hfailed & Hnew).
  assert (Hh : holds_region holding busy).
  { split; [reflexivity|]. split; [reflexivity|].
    intros _ _. exists [0; 0; 0; 0]. split; reflexivity. }
  split; [|split].
  - destruct (Hdestroy holding busy [5] Error Hh) as (Hm & _ & Hp).
    + simpl. apply Permutation_swap.
    + split; [|exact Hp]. change (set_state holding Error) with holding in Hm.
      rewrite Hm. reflexivity.
  - specialize (Hfailed empty_host holding busy "none.apk" (frozen 0) Hh).
    simpl in Hfailed. simpl. split; [reflexivity|].
    apply Hfailed. discriminate.
  - specialize (Hnew (host_with (Some (MkZipEntry 4 (Some [1; 2; 3; 4])))) idle
                     "app.apk" (frozen 0)).
    assert (Hi : holds_region new idle).
    { split; [reflexivity|]. split; [reflexivity|]. intros H. exfalso. by apply H. }
    specialize (Hnew Hi). revert Hnew.
    destruct (fst (loadApk _ new idle "app.apk" (frozen 0))) as [[r l'] os'] eqn:E.
    vm_compute in E. injection E as <- <- <-.
    intros Hnew. split; [reflexivity|]. split; [reflexivity|]. exact Hnew.
Defined.

(** C4 at the input where the code departs from it: teardown after a
    failed load that leaves a region mapped.  A new loader loads an
    archive whose [classes.dex] has four bytes, which maps a region at
    address 1; a second load, of an archive whose [classes.dex] is empty
    or on a host that refuses the mapping, fails with [RuntimeError] and
    overwrites the pointer with [MAP_FAILED]; teardown then calls
    [munmap] on [MAP_FAILED], which releases nothing, and the loader's
    region is still mapped after it. *)
Theorem teardown_after_failed_load_leaks :
  let good := host_with (Some (MkZipEntry 4 (Some [1; 2; 3; 4]))) in
  let empty := host_with (Some (MkZipEntry 0 (Some []))) in
  let refusing :=
    MkEnv (fun _ => inr true)
          (fun _ => Some (MkZip (Some (MkZipEntry 8 (Some [1; 2; 3; 4; 5; 6; 7; 8])))))
          (fun _ => true) in
  let '(r1, l1, os1, clk1) := loadApk good new idle "app.apk" (frozen 0) in
  (r1 = Success /\ dex_data l1 = 1 /\ mapped os1 = {[1 := [1; 2; 3; 4]]}
   /\ mapped (destroy l1 os1) = ∅)
  /\ (let '(r2, l2, os2, _) := loadApk empty l1 os1 "empty.apk" clk1 in
      r2 = RuntimeError /\ state l2 = Error /\ dex_data l2 = MAP_FAILED
      /\ mapped (destroy l2 os2) = {[1 := [1; 2; 3; 4]]})
  /\ (let '(r2, l2, os2, _) := loadApk refusing l1 os1 "big.apk" clk1 in
      r2 = RuntimeError /\ state l2 = Error /\ dex_data l2 = MAP_FAILED
      /\ mapped (destroy l2 os2) = {[1 := [1; 2; 3; 4]]}).
Proof. vm_compute. repeat split. Qed.

(** Teardown releases the region the loader's pointer names.  A second
    load on a loader that already holds a region overwrites the pointer,
    and the first region then outlives the loader. *)
Example reload_leaks_first_region :
  let host := host_with (Some (MkZipEntry 4 (Some [1; 2; 3; 4]))) in
  let '(_, l1, os1, clk1) := loadApk host new idle "app.apk" (frozen 0) in
  let '(r, l2, os2, _) := loadApk host l1 os1 "app.apk" clk1 in
  r = Success /\ dex_data l1 = 1 /\ dex_data l2 = 2
  /\ mapped (destroy l2 os2) = {[1 := [1; 2; 3; 4]]}.
Proof. vm_compute. repeat split. Qed.

End ExecutorClaims.

(** ** Runtime boot and class registry *)

Section RuntimeClaims.
Import Runtime.

(** Boot on a new runtime ends in [Ready] with the four core classes and
    the four native-method stubs registered. *)
Example initialize_boots :
  let '(booted, r, evs) :=
    fst (initialize (fst (new (frozen 0))) RuntimeConfig_default (frozen 0)) in
  booted = true /\ state r = Ready /\ loaded_classes r = core_classes
  /\ size (native_methods r) = 4%nat.
Proof. vm_compute. repeat split. Qed.

(** C5, what the code does.  When the runtime is not [Ready],
    [startActivity] returns [RuntimeError] and leaves the runtime, the
    clock and the callback untouched.  When it is [Ready], the call
    appends the name to the class table, sets the state to [Running] and
    returns [Success]; the lines it hands to the event callback are the
    two log lines; no other field of the runtime changes, and nothing
    else is done: no component instance is made and no lifecycle call is
    issued. *)
Theorem startActivity_effect (r : Impl) (activity_name : string) (p : Z)
                             (clk : Clock) :
  let '(res, r', evs) := fst (startActivity r activity_name p clk) in
  if decide (state r = Ready) then
    res = Success
    /\ r' = MkImpl (config r) Running (user r) (start_time r)
                   (loaded_classes r ++ [activity_name])
                   (native_methods r) (event_callback r)
    /\ map log_message evs
       = match event_callback r with
         | Some _ => ["Starting activity: " +:+ activity_name;
                      "Loading class: " +:+ activity_name]
         | None => []
         end
  else
    res = RuntimeError /\ r' = r /\ evs = []
    /\ snd (startActivity r activity_name p clk) = clk.
Proof.
  unfold startActivity.
  destruct r as [cfg st u t0 cls nm [cb|]]; destruct st; simpl; repeat split.
Qed.

(** C5 at a concrete input: a runtime that has booted is asked to start
    the main activity. *)
Example startActivity_after_boot :
  let '(_, r, _) :=
    fst (initialize (fst (new (frozen 0))) RuntimeConfig_default (frozen 0)) in
  let '(res, r', evs) :=
    fst (startActivity r "com.example.test.MainActivity" 0 (frozen 0)) in
  res = Success /\ state r' = Running
  /\ loaded_classes r' = (core_classes ++ ["com.example.test.MainActivity"])%list
  /\ evs = [].
Proof. vm_compute. repeat split. Qed.

End RuntimeClaims.

(** * Further properties of the code *)

(** ** The component lifecycle *)

Section ActivityExtras.
Import Activity.

Lemma call_log_grows (c : Call) (a : Impl) (clk : Clock) :
  lifecycle_log a `prefix_of` lifecycle_log (fst (call c a clk)).
Proof.
  destruct a as [pn an [v t] sv f lg ct wf ss].
  destruct c, v; simpl; unfold log_line; simpl;
    first [ reflexivity
          | by apply prefix_app_r
          | rewrite <- app_assoc; by apply prefix_app_r ].
Qed.

Lemma op_log_grows (o : Op) (a : Impl) (clk : Clock) :
  lifecycle_log a `prefix_of` lifecycle_log (fst (op o a clk)).
Proof.
  destruct o as [c| |s|b|i|]; simpl; try by apply prefix_app_r.
  - apply call_log_grows.
  - unfold finish. destruct (is_finishing a); simpl; [reflexivity|].
    destruct a as [pn an [v t] sv f lg ct wf ss].
    destruct v; simpl; unfold log_line; simpl;
      rewrite <- ?app_assoc; by apply prefix_app_r.
Qed.

(** X1: once an instance is [Destroyed], no run of lifecycle calls has any
    effect: the instance comes back as it was and the clock is not read. *)
Theorem destroyed_is_terminal (cs : list Call) (a : Impl) (clk : Clock) :
  value (state a) = Destroyed -> run_calls cs a clk = (a, clk).
Proof.
  intros Hd. induction cs as [|c cs IH]; [done|].
  simpl. unfold bind.
  pose proof (call_table c a clk) as Hc. rewrite Hd in Hc.
  destruct c; cbn [spec_table] in Hc; rewrite Hc; exact IH.
Qed.

Lemma destroyed_is_terminal_witness :
  let a := fst (finish (fst (new (frozen 0))) (frozen 0)) in
  run_calls [CallCreate; CallStart; CallResume; CallPause; CallStop; CallDestroy]
            a (frozen 1)
  = (a, frozen 1).
Proof.
  intros a. apply (destroyed_is_terminal _ a (frozen 1)). reflexivity.
Defined.

(** X2: the lifecycle log is append-only: whatever operations are applied
    to an instance, the log it had is a prefix of the log it has
    afterwards. *)
Theorem lifecycle_log_append_only (os : list Op) (a : Impl) (clk : Clock) :
  lifecycle_log a `prefix_of` lifecycle_log (fst (run_ops os a clk)).
Proof.
  revert a clk. induction os as [|o os IH]; intros a clk; [reflexivity|].
  simpl. unfold bind.
  pose proof (op_log_grows o a clk) as Ho.
  destruct (op o a clk) as [a' clk']. simpl in Ho.
  etrans; [exact Ho|apply IH].
Qed.

Lemma null_services_lookup (name : string) (p : Z) :
  null_services !! name = Some p -> p = 0.
Proof.
  unfold null_services. intros H.
  repeat (apply lookup_insert_Some in H as [[_ <-]|[_ H]]; [done|]).
  by rewrite lookup_empty in H.
Qed.

Lemma op_services_invariant (o : Op) (a : Impl) (clk : Clock) :
  services_invariant a -> services_invariant (fst (op o a clk)).
Proof.
  unfold services_invariant.
  destruct a as [pn an [v t] sv f lg ct wf ss]. simpl.
  intros [Hs Hd].
  assert (Hfull : <["location" := 0]> (<["input_method" := 0]> (<["activity" := 0]>
            (<["layout_inflater" := 0]> (<["window" := 0]> sv)))) = null_services).
  { destruct Hs as [-> | ->]; [done|]. by vm_compute. }
  destruct o as [c| |s|b|i|]; simpl; try (split; assumption).
  - destruct c, v; simpl; try (split; assumption);
      try (split; [by right|done]); split; by auto.
  - unfold finish. simpl. destruct f; simpl; [split; assumption|].
    destruct v; simpl; split; by auto.
Qed.

(** X3: [getSystemService] returns [nullptr] for every name after every
    sequence of operations on a new instance: the service table is empty
    or holds the five services, each bound to null, and it is empty
    whenever the instance is destroyed. *)
Theorem system_services_are_null (os : list Op) (clk : Clock) (name : string) :
  let a := fst (run_ops os (fst (new clk)) (snd (new clk))) in
  getSystemService a name = 0
  /\ (system_services a = ∅ \/ system_services a = null_services)
  /\ (isDestroyed a = true -> system_services a = ∅).
Proof.
  intros a.
  assert (Inv : services_invariant a).
  { subst a. generalize (snd (new clk)).
    assert (H0 : services_invariant (fst (new clk))) by (split; [by left|done]).
    revert H0. generalize (fst (new clk)).
    induction os as [|o os IH]; intros a0 H0 c0; [exact H0|].
    simpl. unfold bind.
    pose proof (op_services_invariant o a0 c0 H0) as Ho.
    destruct (op o a0 c0) as [a' c']. by apply IH. }
  destruct Inv as [Hs Hd]. split; [|split; [exact Hs|]].
  - unfold getSystemService.
    destruct (system_services a !! name) as [p|] eqn:Hp; [|done].
    destruct Hs as [Hs|Hs]; rewrite Hs in Hp.
    + by rewrite lookup_empty in Hp.
    + by apply null_services_lookup in Hp.
  - unfold isDestroyed. intros H. apply Hd. by apply bool_decide_eq_true in H.
Qed.

Lemma op_identity (o : Op) (a : Impl) (clk : Clock) :
  let a' := fst (op o a clk) in
  package_name a' = package_name a /\ activity_name a' = activity_name a
  /\ create_time a' = create_time a.
Proof.
  destruct a as [pn an [v t] sv f lg ct wf ss].
  destruct o as [c| |s|b|i|]; simpl; try done.
  - destruct c, v; done.
  - unfold finish. simpl. destruct f; [done|]. destruct v; done.
Qed.

(** X4: no operation changes what identifies the instance: package name,
    activity name and creation time are after every sequence of
    operations what they were before it; so [getPackageName] of an
    instance made by the constructor is always "com.example.app". *)
Theorem identity_never_changes (os : list Op) (a : Impl) (clk clk0 : Clock) :
  let a' := fst (run_ops os a clk) in
  (package_name a' = package_name a /\ activity_name a' = activity_name a
   /\ create_time a' = create_time a)
  /\ package_name (fst (run_ops os (fst (new clk0)) (snd (new clk0))))
     = "com.example.app".
Proof.
  assert (H : forall a clk,
    let a' := fst (run_ops os a clk) in
    package_name a' = package_name a /\ activity_name a' = activity_name a
    /\ create_time a' = create_time a).
  { induction os as [|o os IH]; intros a0 c0; [done|].
    simpl. unfold bind.
    pose proof (op_identity o a0 c0) as Ho.
    destruct (op o a0 c0) as [a1 c1]. simpl in Ho.
    destruct Ho as (H1 & H2 & H3).
    destruct (IH a1 c1) as (I1 & I2 & I3).
    simpl. rewrite I1, I2, I3. done. }
  intros a'. split; [apply H|].
  destruct (H (fst (new clk0)) (snd (new clk0))) as [-> _]. reflexivity.
Qed.

Lemma op_saved_state (o : Op) (a : Impl) (clk : Clock) :
  is_restore o = false -> saved_state (fst (op o a clk)) = saved_state a.
Proof.
  destruct a as [pn an [v t] sv f lg ct wf ss].
  destruct o as [c| |s|b|i|]; simpl; try done.
  - by destruct c, v.
  - intros _. unfold finish. simpl. destruct f; [done|]. by destruct v.
Qed.

(** X5: the key/value data of a restored snapshot is what every later
    save hands back, whatever lifecycle calls, focus changes, saves or
    [finish] happen in between, until the next restore; the finishing flag
    and the focus flag of the saved snapshot are the instance's own at the
    time of the save, not the restored snapshot's. *)
Theorem snapshot_data_persists (os : list Op) (a : Impl) (s : SavedState)
                               (clk clk' : Clock) :
  forallb (fun o => negb (is_restore o)) os = true ->
  let a' := fst (run_ops os (onRestoreInstanceState a s) clk) in
  let saved := snd (fst (onSaveInstanceState a' clk')) in
  ss_data saved = ss_data s
  /\ ss_is_finishing saved = is_finishing a'
  /\ ss_has_focus saved = has_window_focus a'
  /\ ss_timestamp saved = readings clk' (cursor clk').
Proof.
  intros Hos a' saved.
  assert (H : forall a0 c0, saved_state a0 = s ->
                            saved_state (fst (run_ops os a0 c0)) = s).
  { induction os as [|o os IH]; intros a0 c0 H0; [exact H0|].
    simpl in Hos. apply andb_true_iff in Hos as [Ho Hos].
    simpl. unfold bind.
    pose proof (op_saved_state o a0 c0) as Hs.
    destruct (op o a0 c0) as [a1 c1]. simpl in Hs.
    apply IH; [exact Hos|]. rewrite Hs; [exact H0|].
    by destruct (is_restore o). }
  subst saved. simpl. subst a'. by rewrite H.
Qed.

Lemma snapshot_data_persists_witness :
  let s := MkSavedState 7 [("k", "v")] true true in
  let a' := fst (run_ops [OpCall CallStart; OpFocus false; OpSave; OpFinish]
                         (onRestoreInstanceState (fst (new (frozen 0))) s) (frozen 1)) in
  let saved := snd (fst (onSaveInstanceState a' (frozen 2))) in
  ss_data saved = [("k", "v")]
  /\ ss_is_finishing saved = is_finishing a'
  /\ ss_has_focus saved = has_window_focus a'
  /\ ss_timestamp saved = 2.
Proof.
  intros s a' saved.
  apply (snapshot_data_persists
           [OpCall CallStart; OpFocus false; OpSave; OpFinish]
           (fst (new (frozen 0))) s (frozen 1) (frozen 2)).
  reflexivity.
Defined.

End ActivityExtras.

(** ** The capability gateway *)

Section APIExtras.
Import API.

Lemma same_setup_refl (g : Impl) : same_setup g g.
Proof. by repeat split. Qed.

Lemma same_setup_trans (g1 g2 g3 : Impl) :
  same_setup g1 g2 -> same_setup g2 g3 -> same_setup g1 g3.
Proof.
  unfold same_setup. intros (A1 & A2 & A3 & A4 & A5 & A6 & A7)
                            (B1 & B2 & B3 & B4 & B5 & B6 & B7).
  rewrite B1, B2, B3, B4, B5, B6, B7. done.
Qed.

Lemma checkRateLimit_effect (g : Impl) (clk : Clock) :
  let '(admitted, g') := fst (checkRateLimit g clk) in
  state g' = state g /\ handlers g' = handlers g
  /\ (0 <= api_calls_count g <= MAX_API_CALLS_PER_SECOND ->
      0 <= api_calls_count g' <= MAX_API_CALLS_PER_SECOND)
  /\ (api_calls_count g < MAX_API_CALLS_PER_SECOND -> admitted = true).
Proof.
  unfold checkRateLimit. timed. unfold MAX_API_CALLS_PER_SECOND.
  destruct (decide (to_seconds _ >= 1)); simpl.
  - repeat split; lia.
  - destruct (decide (api_calls_count g >= 1000)); simpl; repeat split; lia.
Qed.

(** Whatever [std::stoull] throws is a [std::exception] named after it. *)
Lemma stoull_error (s : string) (e : exn) :
  stoull s = inl e -> e = StdException "stoull".
Proof.
  unfold stoull. intros H. repeat case_match; by simplify_eq.
Qed.

Lemma invoke_effect (h : Handler) (g : Impl) (req : APIRequest) :
  let '(g', evs, e) := invoke h g req in
  same_setup g g'
  /\ last_rate_reset g' = last_rate_reset g
  /\ api_calls_count g' = api_calls_count g
  /\ (builtin h = true -> e ≠ Some ForeignException).
Proof.
  destruct h as [| | |body]; simpl.
  - unfold handleGetApiLevel. by repeat split.
  - unfold handleCheckPermission, at_.
    destruct (params req !! "permission"); by repeat split.
  - unfold handleRegisterNativeMethod, at_.
    destruct (params req !! "name"); [|by repeat split].
    destruct (params req !! "pointer") as [text|]; [|by repeat split].
    destruct (stoull text) as [e|v] eqn:Hs; [|by repeat split].
    apply stoull_error in Hs as ->. by repeat split.
  - destruct (body req) as [rs e]. by repeat split.
Qed.

Lemma handleRequest_effect (g : Impl) (req : APIRequest) (clk : Clock) :
  let '(g', evs, e) := fst (handleRequest g req clk) in
  same_setup g g'
  /\ (0 <= api_calls_count g <= MAX_API_CALLS_PER_SECOND ->
      0 <= api_calls_count g' <= MAX_API_CALLS_PER_SECOND)
  /\ (e = None \/ e = Some ForeignException)
  /\ ((forall m h, handlers g !! m = Some h -> builtin h = true) -> e = None).
Proof.
  unfold handleRequest.
  destruct (initialized (state g)) eqn:Hi; simpl.
  2:{ split; [apply same_setup_refl|]. by auto. }
  unfold bind.
  pose proof (checkRateLimit_effect g clk) as Hr.
  destruct (checkRateLimit g clk) as [[admitted g1] clk1]. simpl in Hr.
  destruct Hr as (Hs & Hh & Hc & _).
  assert (S1 : same_setup g g1).
  { unfold same_setup. rewrite Hs, Hh. by repeat split. }
  destruct admitted; simpl.
  2:{ split; [exact S1|]. by auto. }
  destruct (handlers g1 !! method req) as [h|] eqn:Hl; simpl.
  2:{ split; [exact S1|]. by auto. }
  pose proof (invoke_effect h g1 req) as Hv.
  destruct (invoke h g1 req) as [[g2 evs] e].
  destruct Hv as (S2 & _ & Hc2 & Hb).
  assert (Hcount : 0 <= api_calls_count g <= MAX_API_CALLS_PER_SECOND ->
                   0 <= api_calls_count g2 <= MAX_API_CALLS_PER_SECOND).
  { rewrite Hc2. exact Hc. }
  assert (Hbuiltin : (forall m h, handlers g !! m = Some h -> builtin h = true) ->
                     e ≠ Some ForeignException).
  { intros Hall. apply Hb. apply (Hall (method req)). by rewrite <- Hh. }
  destruct e as [[what|]|]; simpl.
  - split; [by eapply same_setup_trans|]. by auto.
  - split; [by eapply same_setup_trans|]. split; [done|]. split; [by auto|].
    intros Hall. by destruct (Hbuiltin Hall).
  - split; [by eapply same_setup_trans|]. by auto.
Qed.

(** Serving requests keeps the setup and the range of the counter. *)
Lemma serve_effect (reqs : list APIRequest) (g : Impl) (clk : Clock) :
  0 <= api_calls_count g <= MAX_API_CALLS_PER_SECOND ->
  let g' := fst (fst (serve reqs g clk)) in
  same_setup g g'
  /\ 0 <= api_calls_count g' <= MAX_API_CALLS_PER_SECOND.
Proof.
  revert g clk. induction reqs as [|req reqs IH]; intros g clk Hc.
  - split; [apply same_setup_refl|exact Hc].
  - simpl. unfold bind.
    pose proof (handleRequest_effect g req clk) as Hr.
    destruct (handleRequest g req clk) as [[[g1 evs] e] clk1]. simpl in Hr.
    destruct Hr as (S1 & Hc1 & _).
    specialize (IH g1 clk1 (Hc1 Hc)). cbn [fst snd] in *.
    destruct (serve reqs g1 clk1) as [[g2 evs2] clk2]. simpl in *.
    destruct IH as [S2 Hc2]. split; [by eapply same_setup_trans|exact Hc2].
Qed.



(** X8: [initialize] succeeds exactly once.  On a gateway that is not
    initialised it mirrors the configuration and touches neither the
    registry, the registered native functions nor the rate limiter; from
    then on, whatever requests are served in between, every further call
    throws "API already initialized". *)
Theorem initialize_only_once (g : Impl) (cfg cfg' : APIConfig)
                             (reqs : list APIRequest) (clk : Clock) :
  initialized (state g) = false ->
  exists g',
    initialize g cfg = inr g'
    /\ initialized (state g') = true
    /\ package_name (state g') = cfg_package_name cfg
    /\ version_name (state g') = cfg_version_name cfg
    /\ version_code (state g') = cfg_version_code cfg
    /\ min_sdk_level (state g') = cfg_min_sdk_level cfg
    /\ target_sdk_level (state g') = cfg_target_sdk_level cfg
    /\ native_functions (state g') = native_functions (state g)
    /\ handlers g' = handlers g
    /\ last_rate_reset g' = last_rate_reset g
    /\ api_calls_count g' = api_calls_count g
    /\ initialize g' cfg' = inl (StdException "API already initialized")
    /\ (0 <= api_calls_count g <= MAX_API_CALLS_PER_SECOND ->
        initialize (fst (fst (serve reqs g' clk))) cfg'
        = inl (StdException "API already initialized")).
Proof.
  intros Hi. unfold initialize at 1. rewrite Hi.
  eexists. split; [reflexivity|]. simpl. repeat split.
  intros Hc.
  destruct (serve_effect reqs
              (set_state g
                 (MkAPIState true (cfg_package_name cfg) (cfg_version_name cfg)
                    (cfg_version_code cfg) (cfg_min_sdk_level cfg)
                    (cfg_target_sdk_level cfg) (native_functions (state g))))
              clk Hc) as [(_ & Hinit & _) _].
  unfold initialize. by rewrite Hinit.
Qed.

Lemma initialize_only_once_witness :
  exists g',
    initialize (fst (new (frozen 0))) example_config = inr g'
    /\ initialized (state g') = true
    /\ initialize g' example_config = inl (StdException "API already initialized").
Proof.
  destruct (initialize_only_once (fst (new (frozen 0))) example_config
              example_config [] (frozen 0) eq_refl)
    as (g' & H1 & H2 & _ & _ & _ & _ & _ & _ & _ & _ & _ & H3 & _).
  exists g'. by repeat split.
Defined.

(** X9: the last handler registered under a name is the one a request for
    that name reaches, whatever was registered under it before (a handler
    of the constructor included); the other names keep their handlers.
    What the handler delivers comes first in the trace; a
    [std::exception] it ends with becomes a failure response, any other
    exception reaches the caller. *)
Theorem registered_handler_is_dispatched
    (g : Impl) (name : string) (body : APIRequest -> list APIResponse * option exn)
    (req : APIRequest) (clk : Clock) :
  initialized (state g) = true ->
  api_calls_count g < MAX_API_CALLS_PER_SECOND ->
  method req = name ->
  let g0 := registerHandler g name (Custom body) in
  let '(g', evs, e) := fst (handleRequest g0 req clk) in
  (forall m, m ≠ name -> handlers g0 !! m = handlers g !! m)
  /\ evs = (Invoked name :: map (Responded (callback req)) (fst (body req))
            ++ match snd (body req) with
               | Some (StdException what) =>
                   [Responded (callback req) (failure ("Handler error: " +:+ what))]
               | _ => []
               end)%list
  /\ e = match snd (body req) with
         | Some ForeignException => Some ForeignException
         | _ => None
         end.
Proof.
  intros Hi Hc Hm g0.
  unfold handleRequest. subst g0. simpl. rewrite Hi. simpl. unfold bind.
  pose proof (checkRateLimit_effect (registerHandler g name (Custom body)) clk) as Hr.
  destruct (checkRateLimit _ clk) as [[admitted g1] clk1]. simpl in Hr.
  destruct Hr as (_ & Hh & _ & Ha). rewrite (Ha Hc). simpl.
  rewrite Hh, Hm. simpl. rewrite lookup_insert_eq. simpl.
  destruct (body req) as [rs [[what|]|]]; simpl.
  - split; [intros m Hne; by rewrite lookup_insert_ne|]. by split.
  - split; [intros m Hne; by rewrite lookup_insert_ne|].
    by rewrite app_nil_r.
  - split; [intros m Hne; by rewrite lookup_insert_ne|].
    by rewrite app_nil_r.
Qed.

Lemma registered_handler_is_dispatched_witness :
  let g := try_initialize (fst (new (frozen 0))) example_config in
  let body := fun _ : APIRequest => ([ok_response "99"], Some (StdException "late")) in
  let '(g', evs, e) :=
    fst (handleRequest (registerHandler g "getApiLevel" (Custom body))
                       (MkAPIRequest "getApiLevel" ∅ 7) (frozen 0)) in
  evs = [Invoked "getApiLevel"; Responded 7 (ok_response "99");
         Responded 7 (failure "Handler error: late")]
  /\ e = None.
Proof.
  intros g body.
  pose proof (registered_handler_is_dispatched g "getApiLevel" body
                (MkAPIRequest "getApiLevel" ∅ 7) (frozen 0) eq_refl
                ltac:(unfold MAX_API_CALLS_PER_SECOND; simpl; lia) eq_refl) as H.
  simpl in H. simpl. destruct H as (_ & H1 & H2). by split.
Defined.



(** An initialised gateway with room in its window runs the handler
    registered for the request's method. *)
Lemma handleRequest_dispatch (g : Impl) (req : APIRequest) (h : Handler) (clk : Clock) :
  initialized (state g) = true ->
  api_calls_count g < MAX_API_CALLS_PER_SECOND ->
  handlers g !! method req = Some h ->
  exists g1,
    state g1 = state g /\ handlers g1 = handlers g
    /\ fst (handleRequest g req clk)
       = (let '(g2, evs, e) := invoke h g1 req in
          match e with
          | Some (StdException what) =>
              (g2, (Invoked (method req) :: evs
                    ++ respond req (failure ("Handler error: " +:+ what)))%list, None)
          | _ => (g2, Invoked (method req) :: evs, e)
          end).
Proof.
  intros Hi Hc Hh. unfold handleRequest. rewrite Hi. cbn [negb]. unfold bind.
  pose proof (checkRateLimit_effect g clk) as Hr.
  destruct (checkRateLimit g clk) as [[admitted g1] clk1]. simpl in Hr.
  destruct Hr as (Hs & Hhs & _ & Ha). rewrite (Ha Hc). cbn [negb].
  exists g1. split; [done|]. split; [done|].
  rewrite Hhs, Hh. destruct (invoke h g1 req) as [[g2 evs] [[what|]|]]; done.
Qed.

(** X11: on a gateway made by the constructor and initialised with a
    configuration, a "getApiLevel" request is answered with the decimal
    text of the configured target level, whatever its parameters and
    whatever the clock shows; the minimum level plays no part. *)
Theorem getApiLevel_reports_target (clk clk' : Clock) (cfg : APIConfig)
                                   (params : gmap string string) (cb : nat) :
  let g := try_initialize (fst (new clk)) cfg in
  let '(g', evs, e) := fst (handleRequest g (MkAPIRequest "getApiLevel" params cb) clk') in
  evs = [Invoked "getApiLevel";
         Responded cb (MkAPIResponse true
                         (to_string (level_to_int (cfg_target_sdk_level cfg))) "")]
  /\ e = None.
Proof.
  intros g.
  destruct (handleRequest_dispatch g (MkAPIRequest "getApiLevel" params cb)
              GetApiLevel clk') as (g1 & Hs & _ & ->); [done|by compute|done|].
  simpl. unfold handleGetApiLevel. rewrite Hs. by split.
Qed.

(** X12: on such a gateway a "checkPermission" request is answered
    "granted" exactly when its "permission" parameter is one of the three
    permissions of the allow list and "denied" for every other value;
    without that parameter it is answered with the failure
    "Handler error: map::at".  No exception reaches the caller. *)
Theorem checkPermission_allow_list (clk clk' : Clock) (cfg : APIConfig)
                                   (params : gmap string string) (cb : nat) :
  let g := try_initialize (fst (new clk)) cfg in
  let '(g', evs, e) :=
    fst (handleRequest g (MkAPIRequest "checkPermission" params cb) clk') in
  evs = [Invoked "checkPermission";
         Responded cb
           match params !! "permission" with
           | Some p =>
               MkAPIResponse true
                 (if bool_decide (p ∈ allow_list) then "granted" else "denied") ""
           | None => MkAPIResponse false "" "Handler error: map::at"
           end]
  /\ e = None.
Proof.
  intros g.
  destruct (handleRequest_dispatch g (MkAPIRequest "checkPermission" params cb)
              CheckPermission clk') as (g1 & Hs & _ & ->); [done|by compute|done|].
  simpl. unfold handleCheckPermission, at_. simpl.
  destruct (params !! "permission") as [p|]; simpl; [|by split].
  split; [|done].
  assert (Hiff : p ∈ allow_list
                 <-> (p = "android.permission.INTERNET"
                      \/ p = "android.permission.READ_EXTERNAL_STORAGE")
                     \/ p = "android.permission.WRITE_EXTERNAL_STORAGE").
  { unfold allow_list. rewrite !elem_of_cons, elem_of_nil. tauto. }
  by rewrite (bool_decide_ext _ _ Hiff), !bool_decide_or.
Qed.

(** X13: registering a native method and looking it up.  A
    "registerNativeMethod" request whose "pointer" parameter [std::stoull]
    reads as [v] binds the name to [v]: [getNativeFunction] then returns
    [v] for that name and what it returned before for every other name.
    When the pointer cannot be read the request is answered with the
    failure "Handler error: stoull" and no binding changes. *)
Theorem registerNativeMethod_lookup
    (g : Impl) (params : gmap string string) (name text : string) (cb : nat)
    (clk : Clock) :
  initialized (state g) = true ->
  api_calls_count g < MAX_API_CALLS_PER_SECOND ->
  handlers g !! "registerNativeMethod" = Some RegisterNativeMethod ->
  params !! "name" = Some name ->
  params !! "pointer" = Some text ->
  let '(g', evs, e) :=
    fst (handleRequest g (MkAPIRequest "registerNativeMethod" params cb) clk) in
  e = None
  /\ match stoull text with
     | inr v =>
         getNativeFunction g' name = v
         /\ (forall other, other ≠ name ->
               getNativeFunction g' other = getNativeFunction g other)
         /\ evs = [Invoked "registerNativeMethod";
                   Responded cb (MkAPIResponse true
                                   ("Native method registered: " +:+ name) "")]
     | inl _ =>
         native_functions (state g') = native_functions (state g)
         /\ evs = [Invoked "registerNativeMethod";
                   Responded cb (MkAPIResponse false "" "Handler error: stoull")]
     end.
Proof.
  intros Hi Hc Hh Hn Hp.
  destruct (handleRequest_dispatch g (MkAPIRequest "registerNativeMethod" params cb)
              RegisterNativeMethod clk Hi Hc Hh) as (g1 & Hs & _ & ->).
  simpl. unfold handleRegisterNativeMethod, at_. simpl. rewrite Hn, Hp.
  destruct (stoull text) as [err|v] eqn:Hst.
  - apply stoull_error in Hst as ->. simpl. by rewrite Hs.
  - simpl. unfold getNativeFunction. simpl. rewrite Hs. split; [done|].
    split; [by rewrite lookup_insert_eq|]. split; [|done].
    intros other Hne. by rewrite lookup_insert_ne.
Qed.

Lemma registerNativeMethod_lookup_witness :
  let g := try_initialize (fst (new (frozen 0))) example_config in
  let params := <["name" := "nativeInit"]> (<["pointer" := " 4096"]> ∅) in
  let '(g', evs, e) :=
    fst (handleRequest g (MkAPIRequest "registerNativeMethod" params 7) (frozen 0)) in
  e = None /\ getNativeFunction g' "nativeInit" = 4096.
Proof.
  intros g params.
  pose proof (registerNativeMethod_lookup g params "nativeInit" " 4096" 7 (frozen 0)
                eq_refl ltac:(by compute) eq_refl eq_refl eq_refl) as H.
  destruct (fst (handleRequest g _ (frozen 0))) as [[g' evs] e].
  change (stoull " 4096") with (inr 4096 : exn + Z) in H.
  destruct H as (He & Hv & _). by split.
Defined.

End APIExtras.

(** ** Reading numbers: [std::stoull] *)

Section StoullFacts.

Lemma digit_of_range (a : ascii) (d : Z) : digit_of a = Some d -> 0 <= d <= 9.
Proof.
  unfold digit_of. case_bool_decide; [|done]. intros [= <-]. lia.
Qed.

Lemma read_digits_nonneg (s : string) (seen : bool) (acc v : Z) :
  0 <= acc -> read_digits seen acc s = Some v -> 0 <= v.
Proof.
  revert seen acc. induction s as [|a s IH]; intros seen acc Hacc; simpl.
  - destruct seen; [|done]. by intros [= <-].
  - destruct (digit_of a) as [d|] eqn:Hd.
    + apply digit_of_range in Hd. apply IH. lia.
    + destruct seen; [|done]. by intros [= <-].
Qed.

(** [stoull] is the digits after optional white space and sign. *)
Lemma stoull_unfold (s : string) :
  exists (negative : bool) (rest : string),
    stoull s
    = match read_digits false 0 rest with
      | None => inl (StdException "stoull")
      | Some v =>
          if decide (v > ULLONG_MAX) then inl (StdException "stoull")
          else inr (if negative then (- v) mod 2 ^ 64 else v)
      end.
Proof.
  unfold stoull. destruct (skip_spaces s) as [|a r].
  - by exists false, "".
  - destruct a as [[] [] [] [] [] [] [] []];
      first [ by exists true, r | by exists false, r | by eexists false, _ ].
Qed.

(** Whatever [std::stoull] returns fits an unsigned 64-bit integer, also
    for a text with a minus sign, which it reads modulo 2^64; and every
    exception it throws carries the text "stoull". *)
Lemma stoull_range (s : string) :
  match stoull s with
  | inr v => 0 <= v <= ULLONG_MAX
  | inl e => e = StdException "stoull"
  end.
Proof.
  destruct (stoull_unfold s) as (negative & rest & ->).
  destruct (read_digits false 0 rest) as [v|] eqn:Hr; [|done].
  apply read_digits_nonneg in Hr; [|lia].
  destruct (decide (v > ULLONG_MAX)); [done|].
  unfold ULLONG_MAX in *. destruct negative; [|lia].
  pose proof (Z.mod_pos_bound (- v) (2 ^ 64) ltac:(lia)). lia.
Qed.

Lemma pretty_N_char_digit (d : N) :
  (d < 10)%N ->
  digit_of (pretty_N_char d) = Some (Z.of_N d)
  /\ is_space (pretty_N_char d) = false
  /\ pretty_N_char d ≠ "-"%char /\ pretty_N_char d ≠ "+"%char.
Proof.
  intros Hd.
  assert (d = 0 \/ d = 1 \/ d = 2 \/ d = 3 \/ d = 4 \/ d = 5 \/ d = 6 \/ d = 7
          \/ d = 8 \/ d = 9)%N as H by lia.
  repeat (destruct H as [-> | H]); try subst d; by vm_compute.
Qed.

Lemma read_digits_pretty (x : N) :
  forall (s : string) (seen : bool) (acc : Z),
  exists k : Z,
    0 <= k
    /\ read_digits seen acc (pretty_N_go x s)
       = read_digits (seen || bool_decide (0 < x)%N) (acc * 10 ^ k + Z.of_N x) s.
Proof.
  induction (N.lt_wf_0 x) as [x _ IH]. intros s seen acc.
  destruct (decide (x = 0%N)) as [-> | Hx].
  - exists 0. split; [done|]. rewrite pretty_N_go_0.
    rewrite bool_decide_eq_false_2 by lia. rewrite orb_false_r. f_equal. simpl. lia.
  - rewrite pretty_N_go_step by lia.
    destruct (IH (x `div` 10)%N ltac:(apply N.div_lt; lia)
                 (String (pretty_N_char (x `mod` 10)) s) seen acc) as (k & Hk & ->).
    exists (k + 1). split; [lia|]. simpl.
    destruct (pretty_N_char_digit (x `mod` 10)%N) as (-> & _).
    { apply N.mod_lt. lia. }
    rewrite (bool_decide_eq_true_2 (0 < x)%N) by lia. rewrite orb_true_r.
    f_equal. rewrite Z.pow_add_r by lia.
    pose proof (N.div_mod x 10 ltac:(lia)) as Hdm.
    assert (Z.of_N x = 10 * Z.of_N (x `div` 10) + Z.of_N (x `mod` 10)) as -> by lia.
    change (10 ^ 1) with 10. ring.
Qed.

Lemma pretty_N_go_head (x : N) :
  forall s : string, (0 < x)%N ->
  exists (d : N) (r : string),
    (d < 10)%N /\ pretty_N_go x s = String (pretty_N_char d) r.
Proof.
  induction (N.lt_wf_0 x) as [x _ IH]. intros s Hx.
  rewrite pretty_N_go_step by done.
  destruct (decide (x `div` 10 = 0)%N) as [Hz|Hz].
  - rewrite Hz, pretty_N_go_0. exists (x `mod` 10)%N, s. split; [|done].
    apply N.mod_lt. lia.
  - apply IH; [apply N.div_lt; lia|by apply N.neq_0_lt_0].
Qed.

(** A text that starts with neither white space nor a sign is read from
    its first character. *)
Lemma stoull_head (c : ascii) (r : string) :
  is_space c = false -> c ≠ "-"%char -> c ≠ "+"%char ->
  stoull (String c r)
  = match read_digits false 0 (String c r) with
    | None => inl (StdException "stoull")
    | Some v => if decide (v > ULLONG_MAX) then inl (StdException "stoull") else inr v
    end.
Proof.
  intros Hsp Hminus Hplus. unfold stoull. cbn [skip_spaces]. rewrite Hsp.
  destruct c as [[] [] [] [] [] [] [] []]; done.
Qed.

(** [std::stoull] reads back what [std::to_string] prints: for every [n]
    from 0 to 2^64 - 1 the decimal text of [n] is read as [n]. *)
Lemma stoull_to_string (n : Z) :
  0 <= n <= ULLONG_MAX -> stoull (to_string n) = inr n.
Proof.
  intros Hn. unfold to_string, pretty, pretty_Z.
  destruct n as [|p|p]; [done| |lia].
  unfold pretty, pretty_positive, pretty, pretty_N.
  rewrite decide_False by done.
  destruct (pretty_N_go_head (N.pos p) "" ltac:(lia)) as (d & r & Hd & Hhead).
  destruct (pretty_N_char_digit d Hd) as (_ & Hsp & Hminus & Hplus).
  destruct (read_digits_pretty (N.pos p) "" false 0) as (k & _ & Hread).
  rewrite Hhead, stoull_head, <- Hhead, Hread by done. simpl.
  replace (0 * 10 ^ k + Z.pos p) with (Z.pos p) by lia.
  destruct (decide (Z.pos p > ULLONG_MAX)); [lia|done].
Qed.

End StoullFacts.


(** ** Native-method registration *)

Section NativeMethodExtras.
Import API.

Lemma invoke_pointers_in_range (h : Handler) (g : Impl) (req : APIRequest) :
  pointers_in_range g -> pointers_in_range (fst (fst (invoke h g req))).
Proof.
  intros Hp. destruct h as [| | |body]; simpl.
  - exact Hp.
  - unfold handleCheckPermission. by destruct (at_ _ _).
  - unfold handleRegisterNativeMethod.
    destruct (at_ (params req) "name") as [?|name]; [done|].
    destruct (at_ (params req) "pointer") as [?|text]; [done|].
    pose proof (stoull_range text) as Hr.
    destruct (stoull text) as [?|v]; [done|].
    intros n w. simpl. rewrite lookup_insert. case_decide.
    + by intros [= <-].
    + apply Hp.
  - by destruct (body req).
Qed.

Lemma handleRequest_pointers_in_range (g : Impl) (req : APIRequest) (clk : Clock) :
  pointers_in_range g -> pointers_in_range (fst (fst (fst (handleRequest g req clk)))).
Proof.
  intros Hp. unfold handleRequest.
  destruct (initialized (state g)); simpl; [|exact Hp]. unfold bind.
  pose proof (checkRateLimit_effect g clk) as Hr.
  destruct (checkRateLimit g clk) as [[admitted g1] clk1]. simpl in Hr.
  destruct Hr as (Hs & _).
  assert (Hp1 : pointers_in_range g1).
  { unfold pointers_in_range. by rewrite Hs. }
  destruct admitted; simpl; [|exact Hp1].
  destruct (handlers g1 !! method req) as [h|]; simpl; [|exact Hp1].
  pose proof (invoke_pointers_in_range h g1 req Hp1) as Hv.
  destruct (invoke h g1 req) as [[g2 evs] [[what|]|]]; exact Hv.
Qed.

(** X14: every pointer [getNativeFunction] returns is an unsigned 64-bit
    value, whatever was requested: on a gateway whose bindings are in the
    range 0 .. 2^64 - 1, as they are on a new one, any sequence of
    requests leaves them in that range, because a pointer parameter that
    does not fit is refused and one with a minus sign is taken modulo
    2^64. *)
Theorem native_pointers_in_range (reqs : list APIRequest) (g : Impl) (clk : Clock)
                                 (name : string) :
  pointers_in_range g ->
  0 <= getNativeFunction (fst (fst (serve reqs g clk))) name <= ULLONG_MAX.
Proof.
  intros Hp.
  assert (H : pointers_in_range (fst (fst (serve reqs g clk)))).
  { revert g clk Hp. induction reqs as [|req reqs IH]; intros g clk Hp; [exact Hp|].
    simpl. unfold bind.
    pose proof (handleRequest_pointers_in_range g req clk Hp) as H1.
    destruct (handleRequest g req clk) as [[[g1 evs] e] clk1]. cbn [fst snd] in *.
    specialize (IH g1 clk1 H1).
    by destruct (serve reqs g1 clk1) as [[g2 evs2] clk2]. }
  unfold getNativeFunction.
  destruct (native_functions _ !! name) as [v|] eqn:Hv.
  - exact (H name v Hv).
  - unfold ULLONG_MAX. lia.
Qed.

Lemma native_pointers_in_range_witness :
  let g := try_initialize (fst (new (frozen 0))) example_config in
  let reqs := [MkAPIRequest "registerNativeMethod"
                            (<["name" := "f"]> (<["pointer" := "-1"]> ∅)) 1] in
  0 <= getNativeFunction (fst (fst (serve reqs g (frozen 0)))) "f" <= ULLONG_MAX.
Proof.
  intros g reqs. apply (native_pointers_in_range reqs g (frozen 0) "f").
  intros name v H. simpl in H. by rewrite lookup_empty in H.
Defined.

(** X15: a pointer handed over as decimal text comes back as the same
    number.  When the "pointer" parameter of a "registerNativeMethod"
    request is what [std::to_string] prints for [v], with [v] between 0
    and 2^64 - 1, the request succeeds and [getNativeFunction] returns [v]
    for the registered name. *)
Theorem registerNativeMethod_reads_decimal
    (g : Impl) (params : gmap string string) (name : string) (v : Z) (cb : nat)
    (clk : Clock) :
  initialized (state g) = true ->
  api_calls_count g < MAX_API_CALLS_PER_SECOND ->
  handlers g !! "registerNativeMethod" = Some RegisterNativeMethod ->
  params !! "name" = Some name ->
  params !! "pointer" = Some (to_string v) ->
  0 <= v <= ULLONG_MAX ->
  let '(g', evs, e) :=
    fst (handleRequest g (MkAPIRequest "registerNativeMethod" params cb) clk) in
  getNativeFunction g' name = v
  /\ evs = [Invoked "registerNativeMethod";
            Responded cb (MkAPIResponse true ("Native method registered: " +:+ name) "")]
  /\ e = None.
Proof.
  intros Hi Hc Hh Hn Hp Hv.
  destruct (handleRequest_dispatch g (MkAPIRequest "registerNativeMethod" params cb)
              RegisterNativeMethod clk Hi Hc Hh) as (g1 & Hs & _ & ->).
  simpl. unfold handleRegisterNativeMethod, at_. simpl. rewrite Hn, Hp.
  rewrite stoull_to_string by done. simpl.
  unfold getNativeFunction. simpl. by rewrite lookup_insert_eq.
Qed.

Lemma registerNativeMethod_reads_decimal_witness :
  let g := try_initialize (fst (new (frozen 0))) example_config in
  let params := <["name" := "nativeInit"]>
                  (<["pointer" := to_string 18446744073709551615]> ∅) in
  let '(g', evs, e) :=
    fst (handleRequest g (MkAPIRequest "registerNativeMethod" params 7) (frozen 0)) in
  getNativeFunction g' "nativeInit" = 18446744073709551615 /\ e = None.
Proof.
  intros g params.
  pose proof (registerNativeMethod_reads_decimal g params "nativeInit"
                18446744073709551615 7 (frozen 0)
                eq_refl ltac:(by compute) eq_refl eq_refl eq_refl
                ltac:(unfold ULLONG_MAX; lia)) as H.
  destruct (fst (handleRequest g _ (frozen 0))) as [[g' evs] e].
  destruct H as (Hv & _ & He). by split.
Defined.

End NativeMethodExtras.

(** ** The package loader *)

Section ExecutorExtras.
Import Executor.

(** The cases of [loadApk], by what the host answers. *)
Lemma loadApk_cases (env : Env) (l : Impl) (os : OS) (path : string)
                         (clk : Clock) :
  let '(r, l', os') := fst (loadApk env l os path clk) in
  same_settings l l'
  /\ match fs_exists env path with
     | inl what =>
         r = RuntimeError /\ state l' = Error /\ last_error l' = what
         /\ apk_info l' = apk_info l
         /\ dex_data l' = dex_data l /\ dex_size l' = dex_size l
     | inr false =>
         r = InvalidApk /\ state l' = Error /\ last_error l' = "APK file not found"
         /\ apk_info l' = apk_info l
         /\ dex_data l' = dex_data l /\ dex_size l' = dex_size l
     | inr true =>
         apk_info l' = loaded_info l path (readings clk (cursor clk))
         /\ ((r = Success /\ state l' = Stopped /\ last_error l' = last_error l)
             \/ (r = RuntimeError /\ state l' = Error
                 /\ (last_error l' = "Failed to open APK file"
                     \/ last_error l' = "Failed to allocate memory for DEX")))
     end.
Proof.
  unfold loadApk, updateState, extractDex, mmap, same_settings, loaded_info.
  destruct l as [ai st cfg le [cb|] ec ir dd ds ll]; simpl;
    destruct (fs_exists env path) as [what|[|]]; simpl; try by repeat split.
  all: timed.
  all: destruct (zip_open env path) as [[[e|]]|]; simpl;
    try (split; [done|]; split; [done|]; by auto).
  all: destruct (decide (entry_size e <= 0)); simpl;
    try (split; [done|]; split; [done|]; by auto).
  all: destruct (mmap_fails env (entry_size e)); simpl;
    try (split; [done|]; split; [done|]; by auto).
  all: destruct (decide _); simpl;
    (split; [done|]; split; [done|]; by auto).
Qed.

(** X16: the outcomes of a load attempt.  A path whose existence cannot
    be determined gives [RuntimeError] with the fault's message as last
    error; a path that does not exist gives [InvalidApk]; in both cases
    metadata and bytecode fields stay as they were.  Once the path exists
    the metadata is written (path, load time, the fixed test values)
    whether or not the load then succeeds; the attempt ends with [Success]
    in state [Stopped], leaving the last error of an earlier attempt in
    place, or with [RuntimeError] in state [Error] and one of the two
    extraction messages.  No other result is ever returned, and settings,
    callbacks and library handles are never touched. *)
Theorem loadApk_outcomes (env : Env) (l : Impl) (os : OS) (path : string)
                         (clk : Clock) :
  let '(r, l', os') := fst (loadApk env l os path clk) in
  same_settings l l'
  /\ match fs_exists env path with
     | inl what =>
         r = RuntimeError /\ state l' = Error /\ last_error l' = what
         /\ apk_info l' = apk_info l
         /\ dex_data l' = dex_data l /\ dex_size l' = dex_size l
     | inr false =>
         r = InvalidApk /\ state l' = Error /\ last_error l' = "APK file not found"
         /\ apk_info l' = apk_info l
         /\ dex_data l' = dex_data l /\ dex_size l' = dex_size l
     | inr true =>
         apk_info l' = loaded_info l path (readings clk (cursor clk))
         /\ ((r = Success /\ state l' = Stopped /\ last_error l' = last_error l)
             \/ (r = RuntimeError /\ state l' = Error
                 /\ (last_error l' = "Failed to open APK file"
                     \/ last_error l' = "Failed to allocate memory for DEX")))
     end.
Proof. apply loadApk_cases. Qed.

(** X17: what the event callback sees of a load attempt.  With a callback
    set, every attempt hands it exactly two lines, "State changed to: 1"
    (loading) and then "State changed to: 4" after a success or
    "State changed to: 5" after a failure; without a callback nothing is
    emitted. *)
Theorem loadApk_events (env : Env) (l : Impl) (os : OS) (path : string)
                       (clk : Clock) :
  let '(r, l', os') := fst (loadApk env l os path clk) in
  events os'
  = (events os
     ++ match event_callback l with
        | Some cb =>
            [(cb, "State changed to: 1");
             (cb, if decide (r = Success) then "State changed to: 4"
                  else "State changed to: 5")]
        | None => []
        end)%list.
Proof.
  unfold loadApk, updateState, extractDex, mmap, zip_fread.
  destruct l as [ai st cfg le [cb|] ec ir dd ds ll]; simpl;
    destruct (fs_exists env path) as [what|[|]]; simpl;
    rewrite <- ?app_assoc; try by rewrite ?app_nil_r.
  all: timed.
  all: destruct (zip_open env path) as [[[e|]]|]; simpl;
    rewrite <- ?app_assoc; try by rewrite ?app_nil_r.
  all: destruct (decide (entry_size e <= 0)); simpl;
    rewrite <- ?app_assoc; try by rewrite ?app_nil_r.
  all: destruct (mmap_fails env (entry_size e)); simpl;
    rewrite <- ?app_assoc; try by rewrite ?app_nil_r.
  all: destruct (decide _); simpl;
    rewrite <- ?app_assoc; try by rewrite ?app_nil_r.
  all: destruct (entry_bytes e); simpl;
    rewrite <- ?app_assoc; by rewrite ?app_nil_r.
Qed.

Lemma store_zeros (bytes : list Z) (n : nat) :
  (length bytes <= n)%nat ->
  store bytes (replicate n 0) = (bytes ++ replicate (n - length bytes) 0)%list.
Proof.
  intros Hlen. unfold store. rewrite length_replicate.
  rewrite take_ge by done. by rewrite drop_replicate.
Qed.

(** A load of an archive that has a [classes.dex] entry either fails to
    get memory, and then holds [MAP_FAILED], or maps one new region and
    reads the entry into it. *)
Lemma loadApk_with_entry (env : Env) (l : Impl) (os : OS) (path : string)
                         (clk : Clock) (e : ZipEntry) :
  fs_exists env path = inr true ->
  zip_open env path = Some (MkZip (Some e)) ->
  let '(r, l', os') := fst (loadApk env l os path clk) in
  dex_size l' = entry_size e
  /\ if decide (entry_size e <= 0 \/ mmap_fails env (entry_size e) = true) then
       r = RuntimeError /\ dex_data l' = MAP_FAILED /\ mapped os' = mapped os
       /\ last_error l' = "Failed to allocate memory for DEX"
     else
       r = Success /\ dex_data l' ≠ 0 /\ dex_data l' ≠ MAP_FAILED
       /\ mapped os !! dex_data l' = None
       /\ mapped os'
          = <[dex_data l' :=
                match entry_bytes e with
                | Some bytes => store bytes (replicate (Z.to_nat (entry_size e)) 0)
                | None => replicate (Z.to_nat (entry_size e)) 0
                end]> (mapped os).
Proof.
  intros Hex Hzip. unfold loadApk, updateState, extractDex, mmap, zip_fread.
  set (addr := fresh ({[0; MAP_FAILED]} ∪ dom (mapped os))).
  assert (Hfresh : addr ∉ {[0; MAP_FAILED]} ∪ dom (mapped os)) by apply is_fresh.
  assert (addr ≠ 0) by (intros E; apply Hfresh; rewrite E; set_unfold; tauto).
  assert (addr ≠ MAP_FAILED) by (intros E; apply Hfresh; rewrite E; set_unfold; tauto).
  assert (Hnone : mapped os !! addr = None).
  { apply not_elem_of_dom. intros E. apply Hfresh. set_unfold. tauto. }
  destruct l as [ai st cfg le [cb|] ec ir dd ds ll]; simpl; rewrite Hex; timed;
    rewrite Hzip; simpl.
  all: destruct (decide (_ \/ _)) as [Hf|Hf].
  all: destruct (decide (entry_size e <= 0)) as [Hs|Hs]; simpl;
    try (by repeat split); try (exfalso; apply Hf; by left).
  all: destruct (mmap_fails env (entry_size e)) eqn:Hm; simpl;
    try (by repeat split); try (exfalso; apply Hf; by right).
  all: try (by destruct Hf).
  all: fold addr; rewrite (decide_False (P := addr = MAP_FAILED)) by done.
  all: destruct (entry_bytes e) as [bytes|]; simpl;
    rewrite ?alter_insert_eq; by repeat split.
Qed.

(** X18: a successful load copies the bytecode.  When the archive's
    [classes.dex] entry has a positive size and memory is granted, the
    load succeeds with a non-null pointer to a region that was not mapped
    before, of the entry's size, holding the bytes read from the entry
    followed by zero bytes where the read fell short; a complete read
    leaves exactly the entry's bytes. *)
Theorem loadApk_copies_bytecode (env : Env) (l : Impl) (os : OS) (path : string)
                                (clk : Clock) (size : Z) (bytes : list Z) :
  fs_exists env path = inr true ->
  zip_open env path = Some (MkZip (Some (MkZipEntry size (Some bytes)))) ->
  0 < size ->
  mmap_fails env size = false ->
  (length bytes <= Z.to_nat size)%nat ->
  let '(r, l', os') := fst (loadApk env l os path clk) in
  r = Success /\ state l' = Stopped
  /\ dex_data l' ≠ 0 /\ dex_size l' = size
  /\ mapped os !! dex_data l' = None
  /\ mapped os' !! dex_data l'
     = Some (bytes ++ replicate (Z.to_nat size - length bytes) 0)%list
  /\ (Z.of_nat (length bytes) = size -> mapped os' !! dex_data l' = Some bytes).
Proof.
  intros Hex Hzip Hsize Hm Hlen.
  pose proof (loadApk_with_entry env l os path clk _ Hex Hzip) as H.
  pose proof (loadApk_cases env l os path clk) as Ho.
  destruct (fst (loadApk env l os path clk)) as [[r l'] os'].
  rewrite Hex in Ho. simpl in H.
  destruct H as (Hds & H). rewrite decide_False in H.
  2:{ intros [?|?]; [lia|congruence]. }
  destruct H as (-> & Hn0 & _ & Hnone & Hmap).
  destruct Ho as (_ & _ & [(_ & Hst & _)|(? & _)]); [|done].
  rewrite Hmap, lookup_insert_eq, store_zeros by done.
  repeat split; try done.
  intros Hfull. replace (Z.to_nat size - length bytes)%nat with 0%nat by lia.
  simpl. by rewrite app_nil_r.
Qed.

Lemma loadApk_copies_bytecode_witness :
  let '(r, l', os') :=
    fst (loadApk (host_with (Some (MkZipEntry 4 (Some [100; 101; 120]))))
                 new idle "app.apk" (frozen 0)) in
  r = Success /\ mapped os' !! dex_data l' = Some [100; 101; 120; 0].
Proof.
  pose proof (loadApk_copies_bytecode
                (host_with (Some (MkZipEntry 4 (Some [100; 101; 120]))))
                new idle "app.apk" (frozen 0) 4 [100; 101; 120]
                eq_refl eq_refl ltac:(lia) eq_refl ltac:(simpl; lia)) as H.
  destruct (fst (loadApk _ new idle "app.apk" (frozen 0))) as [[r l'] os'].
  destruct H as (Hr & _ & _ & _ & _ & Hm & _). by split.
Defined.

(** X19: a region is only ever released by teardown, and only the one the
    pointer names.  When a loader that holds a region loads an archive
    with a [classes.dex] entry again, whether the new load succeeds or
    fails for lack of memory, the pointer is overwritten and the region
    held before is still mapped after the loader is torn down. *)
Theorem reload_leaks_region (env : Env) (l : Impl) (os : OS) (path : string)
                            (clk : Clock) (e : ZipEntry) :
  holds_region l os ->
  dex_data l ≠ 0 -> dex_data l ≠ MAP_FAILED ->
  fs_exists env path = inr true ->
  zip_open env path = Some (MkZip (Some e)) ->
  let '(r, l', os') := fst (loadApk env l os path clk) in
  dex_data l' ≠ dex_data l
  /\ is_Some (mapped os !! dex_data l)
  /\ mapped (destroy l' os') !! dex_data l = mapped os !! dex_data l.
Proof.
  intros Hh Hn0 Hnf Hex Hzip.
  pose proof (loadApk_with_entry env l os path clk e Hex Hzip) as H.
  pose proof (loadApk_holds_region env l os path clk Hh) as Hh'.
  destruct (fst (loadApk env l os path clk)) as [[r l'] os'].
  destruct Hh as (_ & _ & Hreg). destruct (Hreg Hn0 Hnf) as (region & Hreg' & _).
  destruct H as (_ & H).
  rewrite destroy_mapped by done.
  destruct (decide _) as [_|_].
  - destruct H as (_ & Hd & Hm & _).
    assert (dex_data l' ≠ dex_data l) by congruence.
    split; [done|]. split; [by rewrite Hreg'|].
    by rewrite lookup_delete_ne, Hm.
  - destruct H as (_ & _ & _ & Hnone & Hm).
    assert (dex_data l' ≠ dex_data l) by congruence.
    split; [done|]. split; [by rewrite Hreg'|].
    by rewrite lookup_delete_ne, Hm, lookup_insert_ne.
Qed.

Lemma reload_leaks_region_witness :
  let host := host_with (Some (MkZipEntry 4 (Some [1; 2; 3; 4]))) in
  let '(r, l', os') := fst (loadApk host holding busy "app.apk" (frozen 0)) in
  mapped (destroy l' os') !! 1 = Some [0; 0; 0; 0].
Proof.
  intros host.
  assert (Hh : holds_region holding busy).
  { split; [reflexivity|]. split; [reflexivity|].
    intros _ _. exists [0; 0; 0; 0]. split; reflexivity. }
  pose proof (reload_leaks_region host holding busy "app.apk" (frozen 0)
                (MkZipEntry 4 (Some [1; 2; 3; 4])) Hh
                ltac:(done) ltac:(done) eq_refl eq_refl) as H.
  destruct (fst (loadApk host holding busy "app.apk" (frozen 0))) as [[r l'] os'].
  destruct H as (_ & _ & H). etrans; [exact H|reflexivity].
Defined.

(** X20: a load that cannot get memory.  When the [classes.dex] entry is
    empty or the host refuses the mapping, the load returns
    [RuntimeError] with "Failed to allocate memory for DEX", maps
    nothing, and leaves the bytecode pointer at [MAP_FAILED], which is
    not null, with the size field set to the entry's size. *)
Theorem loadApk_allocation_failure (env : Env) (l : Impl) (os : OS)
                                   (path : string) (clk : Clock) (e : ZipEntry) :
  fs_exists env path = inr true ->
  zip_open env path = Some (MkZip (Some e)) ->
  entry_size e <= 0 \/ mmap_fails env (entry_size e) = true ->
  let '(r, l', os') := fst (loadApk env l os path clk) in
  r = RuntimeError /\ state l' = Error
  /\ last_error l' = "Failed to allocate memory for DEX"
  /\ dex_data l' = MAP_FAILED /\ dex_data l' ≠ 0
  /\ dex_size l' = entry_size e
  /\ mapped os' = mapped os.
Proof.
  intros Hex Hzip Hfail.
  pose proof (loadApk_with_entry env l os path clk e Hex Hzip) as H.
  pose proof (loadApk_cases env l os path clk) as Ho.
  destruct (fst (loadApk env l os path clk)) as [[r l'] os'].
  rewrite Hex in Ho. destruct H as (Hds & H). rewrite decide_True in H by done.
  destruct H as (-> & Hd & Hm & Hle).
  destruct Ho as (_ & _ & [(? & _)|(_ & Hst & _)]); [done|].
  rewrite Hd. by repeat split.
Qed.

Lemma loadApk_allocation_failure_witness :
  let '(r, l', os') :=
    fst (loadApk (host_with (Some (MkZipEntry 0 (Some [])))) new idle "empty.apk"
                 (frozen 0)) in
  r = RuntimeError /\ dex_data l' = MAP_FAILED /\ mapped os' = ∅.
Proof.
  pose proof (loadApk_allocation_failure
                (host_with (Some (MkZipEntry 0 (Some [])))) new idle "empty.apk"
                (frozen 0) (MkZipEntry 0 (Some [])) eq_refl eq_refl
                ltac:(left; simpl; lia)) as H.
  destruct (fst (loadApk _ new idle "empty.apk" (frozen 0))) as [[r l'] os'].
  destruct H as (Hr & _ & _ & Hd & _ & _ & Hm). by repeat split.
Defined.

(** X21: [pause] and [resume] are guarded.  [pause] acts only in state
    [Running] and [resume] only in state [Paused]; anywhere else they
    return the loader and the process as they are.  From [Running],
    [pause] followed by [resume] gives back the very same loader, and a
    second [pause] in a row does nothing. *)
Theorem pause_resume_guarded (l : Impl) (os : OS) :
  (state l ≠ Running -> pause l os = (l, os))
  /\ (state l ≠ Paused -> resume l os = (l, os))
  /\ (state l = Running ->
      state (fst (pause l os)) = Paused
      /\ fst (resume (fst (pause l os)) (snd (pause l os))) = l
      /\ pause (fst (pause l os)) (snd (pause l os)) = pause l os).
Proof.
  unfold pause, resume, updateState.
  destruct l as [ai st cfg le [cb|] ec ir dd ds ll]; simpl.
  all: split; [intros H; by rewrite decide_False|].
  all: split; [intros H; by rewrite decide_False|].
  all: intros ->; simpl; by repeat split.
Qed.

Lemma pause_resume_guarded_witness :
  let l := set_state (setEventCallback new (Some 3%nat)) Running in
  state (fst (pause l idle)) = Paused
  /\ events (snd (resume (fst (pause l idle)) (snd (pause l idle))))
     = [(3%nat, "State changed to: 3"); (3%nat, "State changed to: 2")].
Proof.
  intros l.
  destruct (pause_resume_guarded l idle) as (_ & _ & H).
  destruct (H eq_refl) as (Hp & _ & _). split; [exact Hp|reflexivity].
Defined.

(** X22: [formatError] gives every result a message of its own: two
    results have the same message only if they are the same result, and
    none of them is reported as "Unknown error". *)
Theorem formatError_distinct (r1 r2 : Result) :
  (formatError r1 = formatError r2 <-> r1 = r2)
  /\ formatError r1 ≠ "Unknown error".
Proof.
  split; [split; [|by intros ->]|]; destruct r1; try destruct r2; done.
Qed.

End ExecutorExtras.

(** ** Runtime boot and class registry *)

Section RuntimeExtras.
Import Runtime.

(** X23: boot is not guarded by the state.  From any state, [Error],
    [Stopped] and [Running] included, [initialize] returns true and leaves
    the runtime [Ready] with the given configuration; it appends the four
    core classes to the class table, so a second boot lists them twice,
    and binds the four native-method names to null, leaving every other
    binding alone.  With an event callback set it emits the ten boot lines
    in their fixed order, without one it emits nothing. *)
Theorem initialize_from_any_state (r : Impl) (cfg : RuntimeConfig) (clk : Clock) :
  let '(booted, r', evs) := fst (initialize r cfg clk) in
  booted = true /\ state r' = Ready /\ config r' = cfg
  /\ loaded_classes r' = (loaded_classes r ++ core_classes)%list
  /\ (forall name,
        native_methods r' !! name
        = if bool_decide (name ∈ map fst native_funcs) then Some 0
          else native_methods r !! name)
  /\ user r' = user r /\ start_time r' = start_time r
  /\ event_callback r' = event_callback r
  /\ map log_message evs
     = match event_callback r with
       | Some _ => boot_lines
       | None => []
       end.
Proof.
  destruct r as [c0 st u t0 cls nm [cb|]]; simpl.
  all: split; [done|]; split; [done|]; split; [done|].
  all: split; [by rewrite <- !app_assoc|].
  all: split; [|done].
  all: intros name; rewrite !lookup_insert.
  all: repeat case_decide; subst.
  all: first
    [ rewrite bool_decide_eq_true_2;
      [done | simpl; rewrite !elem_of_cons; by auto 10]
    | rewrite bool_decide_eq_false_2;
      [done | simpl; rewrite !elem_of_cons, elem_of_nil;
             intros [-> | [-> | [-> | [-> | []]]]]; done] ].
Qed.

(** X24: one boot starts one activity.  After a [startActivity] that
    succeeded the runtime is [Running], and every further
    [startActivity] returns [RuntimeError] without loading a class,
    emitting a line or reading the clock. *)
Theorem startActivity_only_once (r : Impl) (first second : string) (p q : Z)
                                (clk clk' : Clock) :
  state r = Ready ->
  let '(res1, r1, _) := fst (startActivity r first p clk) in
  res1 = Success /\ state r1 = Running
  /\ startActivity r1 second q clk' = ((RuntimeError, r1, []), clk').
Proof.
  destruct r as [c0 st u t0 cls nm [cb|]]; simpl; intros ->; simpl; done.
Qed.

Lemma startActivity_only_once_witness :
  let r := snd (fst (fst (initialize (fst (new (frozen 0))) RuntimeConfig_default
                                     (frozen 0)))) in
  let '(res1, r1, _) := fst (startActivity r "MainActivity" 0 (frozen 0)) in
  res1 = Success
  /\ startActivity r1 "SettingsActivity" 0 (frozen 1) = ((RuntimeError, r1, []), frozen 1).
Proof.
  intros r.
  pose proof (startActivity_only_once r "MainActivity" "SettingsActivity" 0 0
                (frozen 0) (frozen 1) eq_refl) as H.
  destruct (fst (startActivity r "MainActivity" 0 (frozen 0))) as [[res1 r1] evs1].
  destruct H as (H1 & _ & H2). by split.
Defined.

(** X25: [shutdown] acts only in [Ready] and [Running]: there it empties
    the class table and the native-method table and moves to [Stopped],
    keeping configuration, user, start time and callback; in any other
    state it returns the runtime as it is.  Either way the runtime is not
    [Ready] afterwards, so a second [shutdown] does nothing and
    [startActivity] returns [RuntimeError]. *)
Theorem shutdown_effect (r : Impl) (name : string) (p : Z) (clk clk' : Clock) :
  let '(_, r', evs) := fst (shutdown r clk) in
  (if decide (state r = Running \/ state r = Ready) then
     r' = MkImpl (config r) Stopped (user r) (start_time r) [] ∅ (event_callback r)
     /\ map log_message evs
        = match event_callback r with
          | Some _ => ["Shutting down runtime"]
          | None => []
          end
   else r' = r /\ evs = [])
  /\ shutdown r' clk' = ((tt, r', []), clk')
  /\ startActivity r' name p clk' = ((RuntimeError, r', []), clk').
Proof.
  destruct r as [c0 st u t0 cls nm [cb|]]; destruct st; simpl; by repeat split.
Qed.

End RuntimeExtras.
